(** * The rotn encryptor of [ext/encryptors/rotn/rotn_encrypt.c]

    A shallow embedding of the WiredTiger demonstration encryptor: the
    Caesar rotation [do_rotate], the repeating-key shift [do_shift], the
    facade [rotn_encrypt] / [rotn_decrypt] / [rotn_sizing] and the
    per-instance constructor [rotn_customize], followed by the properties
    of the design document that can be checked against that code.

    Conventions.  A byte is a [Z] in [0,256), a buffer a [list Z].  C
    integer conversions are written out with [u8], [u32], [usize] and
    [int32].  [size_t] is taken to be 64 bits wide (LP64). *)

From Stdlib Require Import ZArith Lia.
From stdpp Require Import base numbers list gmap strings.

Local Open Scope Z_scope.
#[local] Set Warnings "-clear-no-such-hyp".

(** ** C integers, <ctype.h>, <stdlib.h>, <errno.h> *)

Module Libc.

Definition u8 (x : Z) : Z := x mod 2 ^ 8.
Definition u32 (x : Z) : Z := x mod 2 ^ 32.
Definition usize (x : Z) : Z := x mod 2 ^ 64.

(** Conversion to a 32-bit [int] (two's complement truncation). *)
Definition int32 (x : Z) : Z := (x + 2 ^ 31) mod 2 ^ 32 - 2 ^ 31.

(** Linux values of the <errno.h> constants the file uses. *)
Definition EPERM : Z := 1.
Definition ENOMEM : Z := 12.
Definition EINVAL : Z := 22.

(** <ctype.h> in the "C" locale; the argument is the byte value. *)
Definition islower (c : Z) : bool := (97 <=? c) && (c <=? 122).
Definition isupper (c : Z) : bool := (65 <=? c) && (c <=? 90).
Definition isalpha (c : Z) : bool := islower c || isupper c.
Definition isdigit (c : Z) : bool := (48 <=? c) && (c <=? 57).
Definition isspace (c : Z) : bool := (c =? 32) || ((9 <=? c) && (c <=? 13)).
Definition isprint (c : Z) : bool := (32 <=? c) && (c <=? 126).

Definition newline : string := String (Ascii.ascii_of_nat 10) EmptyString.

(** The bytes of a string literal. *)
Fixpoint bytes (s : string) : list Z :=
  match s with
  | EmptyString => []
  | String a s' => Z.of_N (Ascii.N_of_ascii a) :: bytes s'
  end.

(** [atoi] as glibc has it: [(int) strtol (nptr, NULL, 10)].  Leading
    white space is skipped, one sign is accepted, digits are accumulated
    until the first byte that is not a digit (the terminating NUL
    included), the [long] result saturates and is then truncated to
    [int]. *)
Fixpoint skip_space (s : list Z) : list Z :=
  match s with
  | c :: s' => if isspace c then skip_space s' else s
  | [] => []
  end.

Fixpoint digits (acc : Z) (s : list Z) : Z :=
  match s with
  | c :: s' => if isdigit c then digits (10 * acc + (c - 48)) s' else acc
  | [] => acc
  end.

Definition LONG_MAX : Z := 2 ^ 63 - 1.
Definition LONG_MIN : Z := - 2 ^ 63.

Definition strtol (s : list Z) : Z :=
  match skip_space s with
  | 45 :: s' => Z.max LONG_MIN (- digits 0 s')
  | 43 :: s' => Z.min LONG_MAX (digits 0 s')
  | s' => Z.min LONG_MAX (digits 0 s')
  end.

Definition atoi (s : list Z) : Z := int32 (strtol s).

(** [strncpy (dst, src, n)] followed by [dst[n - 1] = 0], for a source
    view of [n - 1] bytes: the bytes up to the first NUL, padded with
    NULs, then the terminator. *)
Fixpoint until_nul (s : list Z) : list Z :=
  match s with
  | c :: s' => if c =? 0 then [] else c :: until_nul s'
  | [] => []
  end.

Definition strncpy_term (s : list Z) : list Z :=
  let body := until_nul s in
  body ++ replicate (length s - length body)%nat 0 ++ [0].

End Libc.
Export Libc.

(** ** The instance and what a call can observe *)

(** A heap block handed out by [malloc]: its identity and its bytes. *)
Record buffer := Buffer { blk : nat; data : list Z }.

(** A configuration value as the host returns it, a view on [len] bytes. *)
Record WT_CONFIG_ITEM := ConfigItem { str : list Z }.
Definition len (it : WT_CONFIG_ITEM) : Z := Z.of_nat (length (str it)).

(** A configuration as the host holds it: values by key. *)
Abbreviation WT_CONFIG_ARG := (gmap string (list Z)).

(** The host's side of [wt_api->config_get]: for a configuration and a
    key it answers a return code and, when that code is 0, the item.
    The function is the host's; the extension only calls it. *)
Record WT_EXTENSION_API := ExtensionApi {
  config_get : WT_CONFIG_ARG -> string -> Z * WT_CONFIG_ITEM
}.

(** [ROTN_ENCRYPTOR].  A pointer field is [None] when it is NULL.  The
    method table [encryptor] is the same for every instance and is not
    represented. *)
Record ROTN_ENCRYPTOR := RotnEncryptor {
  wt_api : WT_EXTENSION_API;
  rot_N : Z;
  keyid : option buffer;
  secretkey : option buffer;
  shift_forw : option buffer;
  shift_back : option buffer;
  shift_len : Z
}.

(** What [rotn_encrypt] and [rotn_decrypt] read and write besides their
    arguments: the destination buffer [dst] points to, the cell behind
    [result_lenp], the generator behind [random ()] (its output sequence
    and how many numbers were drawn) and the lines printed on stderr. *)
Record world := World {
  dst : list Z;
  result_len : Z;
  rand_seq : nat -> Z;
  rand_pos : nat;
  stderr : list string
}.

Definition set_dst (d : list Z) (w : world) : world :=
  World d (result_len w) (rand_seq w) (rand_pos w) (stderr w).

(** ** A state monad with faults *)

Inductive fault := OutOfBounds | NullPointer | DivideByZero | Diverges.

Inductive res (A : Type) :=
| Ok (a : A) (w : world)
| Fault (f : fault).
Arguments Ok {A} _ _.
Arguments Fault {A} _.

Definition M (A : Type) : Type := world -> res A.

Definition ret {A} (a : A) : M A := fun w => Ok a w.
Definition fail {A} (f : fault) : M A := fun _ => Fault f.
Definition bind {A B} (m : M A) (k : A -> M B) : M B :=
  fun w => match m w with
           | Ok a w' => k a w'
           | Fault f => Fault f
           end.

Notation "'let*' x := m 'in' k" := (bind m (fun x => k))
  (at level 10, x name, m at level 100, k at level 200, only parsing).
Notation "m >> k" := (bind m (fun _ => k))
  (at level 100, k at level 200, right associativity, only parsing).

(** *** Memory and library operations on the world *)

(** [dst[off]] *)
Definition load (off : Z) : M Z := fun w =>
  if off <? 0 then Fault OutOfBounds
  else match dst w !! Z.to_nat off with
       | Some c => Ok c w
       | None => Fault OutOfBounds
       end.

(** [dst[off] = v] *)
Definition store (off v : Z) : M unit := fun w =>
  if (0 <=? off) && (off <? Z.of_nat (length (dst w)))
  then Ok tt (set_dst (<[Z.to_nat off := v]> (dst w)) w)
  else Fault OutOfBounds.

(** [p[i]] for a pointer field of the instance *)
Definition index (p : option buffer) (i : Z) : M Z := fun w =>
  match p with
  | None => Fault NullPointer
  | Some b =>
      if i <? 0 then Fault OutOfBounds
      else match data b !! Z.to_nat i with
           | Some c => Ok c w
           | None => Fault OutOfBounds
           end
  end.

(** [memcpy (&dst[doff], &src[soff], n)] *)
Definition memcpy (doff : Z) (src : list Z) (soff n : Z) : M unit := fun w =>
  if (0 <=? n) && (soff + n <=? Z.of_nat (length src))
     && (doff + n <=? Z.of_nat (length (dst w)))
  then Ok tt (set_dst (take (Z.to_nat doff) (dst w)
                       ++ take (Z.to_nat n) (drop (Z.to_nat soff) src)
                       ++ drop (Z.to_nat (doff + n)) (dst w)) w)
  else Fault OutOfBounds.

(** [random ()] *)
Definition random : M Z := fun w =>
  Ok (rand_seq w (rand_pos w))
     (World (dst w) (result_len w) (rand_seq w) (S (rand_pos w)) (stderr w)).

(** [*result_lenp = v] *)
Definition set_result_len (v : Z) : M unit := fun w =>
  Ok tt (World (dst w) v (rand_seq w) (rand_pos w) (stderr w)).

(** [fprintf (stderr, line)] *)
Definition fprintf_stderr (line : string) : M unit := fun w =>
  Ok tt (World (dst w) (result_len w) (rand_seq w) (rand_pos w)
               (stderr w ++ [line])).

(** *** Loops *)

(** [for (i = 0; i < n; i++) body] with an [int] counter and a small
    constant bound [n]. *)
Fixpoint for_int (n : nat) (i : Z) (body : Z -> M unit) : M unit :=
  match n with
  | O => ret tt
  | S n' => body i >> for_int n' (i + 1) body
  end.

(** [for (...; i < len; i++) body] with a [uint32_t] counter [i] against a
    [size_t] bound [len]: the increment wraps at 2^32.  [fuel] bounds the
    number of iterations; running out of it is reported as [Diverges]. *)
Fixpoint for_u32 (fuel : nat) (len : Z) (body : Z -> M unit) (i : Z) : M unit :=
  if i <? len then
    match fuel with
    | O => fail Diverges
    | S fuel' => body i >> for_u32 fuel' len body (u32 (i + 1))
    end
  else ret tt.

(** ** The transforms *)

Definition CHKSUM_LEN : Z := 4.
Definition IV_LEN : Z := 16.

(** [make_cksum] and [make_iv]: random filler, one byte per call. *)
Definition make_cksum (d : Z) : M Z :=
  for_int (Z.to_nat CHKSUM_LEN) 0
          (fun i => let* r := random in store (d + i) (u8 r)) >>
  ret 0.

Definition make_iv (d : Z) : M Z :=
  for_int (Z.to_nat IV_LEN) 0
          (fun i => let* r := random in store (d + i) (u8 r)) >>
  ret 0.

(** The assignment in the body of [do_rotate]: [c - base] is an [int], the
    addition of the [uint32_t] [rotn] and the following [% 26] and
    [+ base] are unsigned 32-bit operations, the store truncates to a
    byte. *)
Definition rotate_letter (base rotn c : Z) : Z :=
  u8 (u32 (u32 (u32 (c - base) + rotn) mod 26 + base)).

Definition rotate_byte (rotn c : Z) : Z :=
  if isalpha c then
    if islower c then rotate_letter 97 rotn c
    else rotate_letter 65 rotn c
  else c.

(** [do_rotate (&dst[buf], len, rotn)].  The loop needs at most [len]
    iterations when it terminates at all (see [for_u32_wraps]). *)
Definition do_rotate (buf len rotn : Z) : M unit :=
  for_u32 (Z.to_nat len) len
    (fun i =>
       let* c := load (buf + i) in
       if isalpha c then
         if islower c then store (buf + i) (rotate_letter 97 rotn c)
         else store (buf + i) (rotate_letter 65 rotn c)
       else ret tt)
    0.

(** [do_shift (&dst[buf], len, shift, shiftlen)] *)
Definition do_shift (buf len : Z) (shift : option buffer) (shiftlen : Z) : M unit :=
  for_u32 (Z.to_nat len) len
    (fun i =>
       let* c := load (buf + i) in
       if shiftlen =? 0 then fail DivideByZero
       else
         let* s := index shift (i mod shiftlen) in
         store (buf + i) (u8 (c + s)))
    0.

(** ** The facade *)

Definition rotn_encrypt (e : ROTN_ENCRYPTOR)
    (src : option (list Z)) (src_len dst_len : Z) : M Z :=
  match src with
  | None => ret 0
  | Some s =>
      if dst_len <? usize (usize (src_len + CHKSUM_LEN) + IV_LEN)
      then ret ENOMEM
      else
        let i := CHKSUM_LEN + IV_LEN in
        memcpy i s 0 src_len >>
        (if shift_len e =? 0
         then do_rotate i src_len (rot_N e)
         else do_shift i src_len (shift_forw e) (shift_len e)) >>
        let i := 0 in
        make_cksum i >>
        let i := i + CHKSUM_LEN in
        make_iv i >>
        set_result_len dst_len >>
        ret 0
  end.

Definition rotn_decrypt (e : ROTN_ENCRYPTOR)
    (src : option (list Z)) (src_len dst_len : Z) : M Z :=
  match src with
  | None => ret 0
  | Some s =>
      if dst_len <? usize (usize (src_len - CHKSUM_LEN) - IV_LEN)
      then fprintf_stderr ("Rotate: ENOMEM ERROR" +:+ newline) >> ret ENOMEM
      else
        let i := CHKSUM_LEN + IV_LEN in
        memcpy 0 s i dst_len >>
        (if shift_len e =? 0
         then do_rotate 0 dst_len (u32 (26 - rot_N e))
         else do_shift 0 dst_len (shift_back e) (shift_len e)) >>
        set_result_len dst_len >>
        ret 0
  end.

(** [rotn_sizing]: the return code and the value stored through
    [expansion_constantp]. *)
Definition rotn_sizing (e : ROTN_ENCRYPTOR) : Z * Z :=
  (0, CHKSUM_LEN + IV_LEN).

(** ** The allocator *)

(** The blocks that are allocated and not yet freed, whether the n-th
    allocation request is granted, the number of requests so far, and
    [errno]. *)
Record heap := Heap {
  live : gset nat;
  alloc_ok : nat -> bool;
  alloc_count : nat;
  errno : Z
}.

(** [malloc (size)] and [calloc (1, size)]: a block that is not live, or
    NULL with [errno] set. *)
Definition malloc (size : Z) (h : heap) : option nat * heap :=
  if alloc_ok h (alloc_count h) then
    let p := fresh (live h) in
    (Some p, Heap ({[p]} ∪ live h) (alloc_ok h) (S (alloc_count h)) (errno h))
  else
    (None, Heap (live h) (alloc_ok h) (S (alloc_count h)) ENOMEM).

Definition calloc (nmemb size : Z) (h : heap) : option nat * heap :=
  malloc (nmemb * size) h.

(** [sizeof (ROTN_ENCRYPTOR)] on LP64; the allocator does not depend on it. *)
Definition sizeof_ROTN_ENCRYPTOR : Z := 96.

Definition free (p : nat) (h : heap) : heap :=
  Heap (live h ∖ {[p]}) (alloc_ok h) (alloc_count h) (errno h).

(** [if (p != NULL) free (p)] *)
Definition free_nonnull (p : option buffer) (h : heap) : heap :=
  match p with
  | Some b => free (blk b) h
  | None => h
  end.

(** ** Customization *)

Definition set_keyid (v : option buffer) (e : ROTN_ENCRYPTOR) :=
  RotnEncryptor (wt_api e) (rot_N e) v (secretkey e)
                (shift_forw e) (shift_back e) (shift_len e).
Definition set_secretkey (v : option buffer) (e : ROTN_ENCRYPTOR) :=
  RotnEncryptor (wt_api e) (rot_N e) (keyid e) v
                (shift_forw e) (shift_back e) (shift_len e).
Definition set_shift_forw (v : option buffer) (e : ROTN_ENCRYPTOR) :=
  RotnEncryptor (wt_api e) (rot_N e) (keyid e) (secretkey e)
                v (shift_back e) (shift_len e).
Definition set_shift_back (v : option buffer) (e : ROTN_ENCRYPTOR) :=
  RotnEncryptor (wt_api e) (rot_N e) (keyid e) (secretkey e)
                (shift_forw e) v (shift_len e).
Definition set_shift_len (v : Z) (e : ROTN_ENCRYPTOR) :=
  RotnEncryptor (wt_api e) (rot_N e) (keyid e) (secretkey e)
                (shift_forw e) (shift_back e) v.
Definition set_rot_N (v : Z) (e : ROTN_ENCRYPTOR) :=
  RotnEncryptor (wt_api e) v (keyid e) (secretkey e)
                (shift_forw e) (shift_back e) (shift_len e).

(** The structure [wiredtiger_extension_init] registers: [calloc]ed, so
    every field but [wt_api] is zero. *)
Definition rotn_template (api : WT_EXTENSION_API) : ROTN_ENCRYPTOR :=
  RotnEncryptor api 0 None None None None 0.

(** What [rotn_customize] hands back: the return code, the instance
    stored through [customp] (its block and its fields; [None] when
    nothing was stored) and the heap. *)
Definition customized : Type := Z * option (nat * ROTN_ENCRYPTOR) * heap.

(** The label [err]: release what the instance holds, then the instance.
    [ret] is the code recorded at the jump; the label does not use it. *)
Definition customize_err (self : nat) (re : ROTN_ENCRYPTOR) (ret : Z)
    (h : heap) : customized :=
  let h := free_nonnull (keyid re) h in
  let h := free_nonnull (secretkey re) h in
  let h := free_nonnull (shift_forw re) h in
  let h := free_nonnull (shift_back re) h in
  let h := free self h in
  (EPERM, None, h).

(** The loop over the secret (iterations [i], [i+1], ... for [n] more
    bytes): [None] is the jump to [err] at the first byte that is
    neither lower nor upper case.  A byte is tested by its value; the
    tests are false from 128 on, whether [char] is signed or not, and
    the two stores are the same modulo 256 either way. *)
Fixpoint shift_tables (n : nat) (i : Z) (secret : list Z) (keyid_val : Z)
    (forw back : list Z) : option (list Z * list Z) :=
  match n with
  | O => Some (forw, back)
  | S n' =>
      let c := default 0 (secret !! Z.to_nat i) in
      match (if islower c then Some 97
             else if isupper c then Some 65
             else None) with
      | None => None
      | Some base =>
          let base := u8 (base - keyid_val) in
          shift_tables n' (i + 1) secret keyid_val
            (<[Z.to_nat i := u8 (c - base)]> forw)
            (<[Z.to_nat i := u8 (base - c)]> back)
      end
  end.

(** Either control falls through to the next statement or it jumps to
    [err] with a value in [ret]. *)
Inductive flow :=
| Next (re : ROTN_ENCRYPTOR) (h : heap)
| GotoErr (re : ROTN_ENCRYPTOR) (ret : Z) (h : heap).

(** "Stash the keyid from the configuration string." *)
Definition stash_keyid (encrypt_config : WT_CONFIG_ARG)
    (re : ROTN_ENCRYPTOR) (h : heap) : flow :=
  let '(ret, keyid) := config_get (wt_api re) encrypt_config "keyid" in
  if (ret =? 0) && negb (len keyid =? 0) then
    match malloc (usize (len keyid + 1)) h with
    | (None, h) => GotoErr (set_keyid None re) (errno h) h
    | (Some p, h) =>
        Next (set_keyid (Some (Buffer p (strncpy_term (str keyid)))) re) h
    end
  else Next re h.

(** "We stash the secret key from the configuration string and build
    some shift bytes."  A fresh block holds indeterminate bytes; they are
    zeros here, and every one of them is assigned before it is read. *)
Definition stash_secret (encrypt_config : WT_CONFIG_ARG) (keyid_val : Z)
    (re : ROTN_ENCRYPTOR) (h : heap) : flow :=
  let '(ret, secret) := config_get (wt_api re) encrypt_config "secretkey" in
  if (ret =? 0) && negb (len secret =? 0) then
    let len := len secret in
    let n := Z.to_nat len in
    match malloc (usize (len + 1)) h with
    | (None, h) => GotoErr (set_secretkey None re) (errno h) h
    | (Some ps, h) =>
        let re := set_secretkey (Some (Buffer ps (replicate (S n) 0))) re in
        match malloc len h with
        | (None, h) => GotoErr (set_shift_forw None re) (errno h) h
        | (Some pf, h) =>
            let re := set_shift_forw (Some (Buffer pf (replicate n 0))) re in
            match malloc len h with
            | (None, h) => GotoErr (set_shift_back None re) (errno h) h
            | (Some pb, h) =>
                let re := set_shift_back (Some (Buffer pb (replicate n 0))) re in
                match shift_tables n 0 (str secret) keyid_val
                        (replicate n 0) (replicate n 0) with
                | None => GotoErr re EINVAL h
                | Some (forw, back) =>
                    let re := set_shift_forw (Some (Buffer pf forw)) re in
                    let re := set_shift_back (Some (Buffer pb back)) re in
                    let re := set_shift_len len re in
                    Next (set_secretkey
                            (Some (Buffer ps (strncpy_term (str secret)))) re) h
                end
            end
        end
    end
  else Next re h.

(** [rotn_customize].  [keyid0] is the local [keyid] as it is when the
    function is entered: the function parses [keyid.str] before
    [config_get] has stored anything in [keyid], so the number it uses is
    read from whatever that uninitialised local holds.  Here that local
    addresses a string; [rotn_customize_call] below is the call for a
    pointer that may address nothing readable. *)
Definition rotn_customize (orig : ROTN_ENCRYPTOR)
    (encrypt_config : WT_CONFIG_ARG) (keyid0 : WT_CONFIG_ITEM)
    (h : heap) : customized :=
  match calloc 1 sizeof_ROTN_ENCRYPTOR h with
  | (None, h) => (errno h, None, h)
  | (Some self, h) =>
      let re := set_secretkey None (set_keyid None orig) in
      let keyid_val := atoi (str keyid0) in
      if keyid_val <? 0 then customize_err self re EINVAL h
      else
        match stash_keyid encrypt_config re h with
        | GotoErr re ret h => customize_err self re ret h
        | Next re h =>
            match stash_secret encrypt_config keyid_val re h with
            | GotoErr re ret h => customize_err self re ret h
            | Next re h =>
                let re := set_rot_N (u32 keyid_val) re in
                (0, Some (self, re), h)
            end
        end
  end.

(** The local [keyid] when [rotn_customize] is entered.  Nothing has been
    stored in it, so its [str] is an indeterminate pointer: it addresses
    some string, or nothing that can be read. *)
Inductive entry_keyid :=
| Addresses (keyid0 : WT_CONFIG_ITEM)
| Wild.

(** A call returns, or it is killed by the read of [atoi] through the
    wild pointer. *)
Inductive call_outcome :=
| Returned (c : customized)
| Crashed.

(** [rotn_customize] as a host calls it.  The instance is allocated
    before the number is parsed, so a refused allocation returns even
    under a wild pointer. *)
Definition rotn_customize_call (orig : ROTN_ENCRYPTOR)
    (encrypt_config : WT_CONFIG_ARG) (keyid : entry_keyid) (h : heap)
    : call_outcome :=
  match keyid with
  | Addresses keyid0 => Returned (rotn_customize orig encrypt_config keyid0 h)
  | Wild =>
      match calloc 1 sizeof_ROTN_ENCRYPTOR h with
      | (None, h) => Returned (errno h, None, h)
      | (Some _, _) => Crashed
      end
  end.

(** A host for the examples: a key is found when the configuration has
    it; [WT_NOTFOUND] otherwise. *)
Definition WT_NOTFOUND : Z := -31803.

Definition host_config_get (cfg : WT_CONFIG_ARG) (key : string)
    : Z * WT_CONFIG_ITEM :=
  match cfg !! key with
  | Some v => (0, ConfigItem v)
  | None => (WT_NOTFOUND, ConfigItem [])
  end.

Definition host_api : WT_EXTENSION_API := ExtensionApi host_config_get.

(** A heap in which every request is granted. *)
Definition plentiful : heap := Heap ∅ (fun _ => true) 0 0.

(** A world around a destination buffer [d], with a fixed sequence behind
    [random ()]. *)
Definition world_of (d : list Z) : world :=
  World d 0 (fun n => 1103515245 * Z.of_nat n + 12345) 0 [].

(** ** Vocabulary of the properties *)

(** The effect of [n] iterations, starting at index [i], of a loop whose
    body replaces [dst[buf + i]] by [f i dst[buf + i]]. *)
Fixpoint apply_range (f : Z -> Z -> Z) (buf i : Z) (n : nat) (d : list Z)
    : list Z :=
  match n with
  | O => d
  | S n' =>
      let k := Z.to_nat (buf + i) in
      apply_range f buf (i + 1) n' (<[k := f i (default 0 (d !! k))]> d)
  end.

(** The byte the table [t] of length [shiftlen] adds at index [i]. *)
Definition shift_byte (t : list Z) (shiftlen i c : Z) : Z :=
  u8 (c + default 0 (t !! Z.to_nat (i mod shiftlen))).

(** [w'] differs from [w] at most in the bytes [lo .. hi - 1] of the
    destination and in the state of the random generator. *)
Definition filled (lo hi : Z) (w w' : world) : Prop :=
  length (dst w') = length (dst w)
  /\ (forall k : nat, ~ (lo <= Z.of_nat k < hi) -> dst w' !! k = dst w !! k)
  /\ result_len w' = result_len w
  /\ stderr w' = stderr w.

(** The bytes behind a pointer field, none behind NULL. *)
Definition table (p : option buffer) : list Z :=
  match p with
  | Some b => data b
  | None => []
  end.

(** What encrypt does to the byte [c] at index [j] of the text, and what
    decrypt does to it. *)
Definition enc_byte (e : ROTN_ENCRYPTOR) (j c : Z) : Z :=
  if shift_len e =? 0 then rotate_byte (rot_N e) c
  else shift_byte (table (shift_forw e)) (shift_len e) j c.

Definition dec_byte (e : ROTN_ENCRYPTOR) (j c : Z) : Z :=
  if shift_len e =? 0 then rotate_byte (u32 (26 - rot_N e)) c
  else shift_byte (table (shift_back e)) (shift_len e) j c.

(** An instance whose tables, when it has any, are [shift_len] long. *)
Definition tables_ok (e : ROTN_ENCRYPTOR) : Prop :=
  shift_len e = 0
  \/ (0 < shift_len e
      /\ exists f b, shift_forw e = Some f /\ shift_back e = Some b
         /\ shift_len e = Z.of_nat (length (data f))
         /\ shift_len e = Z.of_nat (length (data b))).

(** The two table entries the loop of [rotn_customize] computes for the
    secret byte [c] and the parsed number [k]. *)
Definition key_base (k c : Z) : Z := u8 ((if islower c then 97 else 65) - k).
Definition forw_byte (k c : Z) : Z := u8 (c - key_base k c).
Definition back_byte (k c : Z) : Z := u8 (key_base k c - c).

(** The instance after the secret has been stashed: tables of the
    secret's length, filled entry by entry from its bytes. *)
Definition built_from (secret : WT_CONFIG_ITEM) (k : Z) (e : ROTN_ENCRYPTOR)
    : Prop :=
  shift_len e = len secret
  /\ exists f b,
       shift_forw e = Some f /\ shift_back e = Some b
       /\ length (data f) = length (str secret)
       /\ length (data b) = length (str secret)
       /\ forall (j : nat) c, str secret !! j = Some c ->
            isalpha c = true
            /\ data f !! j = Some (forw_byte k c)
            /\ data b !! j = Some (back_byte k c).

(** The block a pointer field refers to, none for NULL. *)
Definition ptr_set (p : option buffer) : gset nat :=
  match p with
  | Some b => {[blk b]}
  | None => ∅
  end.

(** The blocks the pointer fields of an instance refer to. *)
Definition owned (re : ROTN_ENCRYPTOR) : gset nat :=
  ptr_set (keyid re) ∪ ptr_set (secretkey re)
  ∪ ptr_set (shift_forw re) ∪ ptr_set (shift_back re).

(** On top of the blocks [L0] that were live before the call, the live
    blocks are the instance [self] and what its fields refer to. *)
Definition holds (L0 : gset nat) (self : nat) (re : ROTN_ENCRYPTOR)
    (h : heap) : Prop :=
  live h = L0 ∪ {[self]} ∪ owned re /\ (self ∉ L0) /\ (owned re ## L0).

(** *** Instances, configurations and heaps for the examples *)

(** A rotation instance as [rotn_customize] leaves it for keyid 13 and
    no secret. *)
Definition rot13 : ROTN_ENCRYPTOR :=
  RotnEncryptor host_api 13 (Some (Buffer 1 (bytes "13" ++ [0])))
                None None None 0.

(** The configuration of the header comment: keyid 2, secretkey ABC. *)
Definition config_abc_2 : WT_CONFIG_ARG :=
  <["keyid" := bytes "2"]> (<["secretkey" := bytes "ABC"]> ∅).

(** The instance [rotn_customize] builds from [config_abc_2] when the
    number it parses is 2. *)
Definition abc_2 : ROTN_ENCRYPTOR :=
  RotnEncryptor host_api 2
    (Some (Buffer 1 [50; 0])) (Some (Buffer 2 [65; 66; 67; 0]))
    (Some (Buffer 3 [2; 3; 4])) (Some (Buffer 4 [254; 253; 252])) 3.

(** The rotation instance for the number 7, without keyid. *)
Definition rot_7 : ROTN_ENCRYPTOR :=
  RotnEncryptor host_api 7 None None None None 0.

(** A secret with a digit, a negative keyid. *)
Definition config_a1c : WT_CONFIG_ARG :=
  <["keyid" := bytes "2"]> (<["secretkey" := bytes "A1C"]> ∅).

Definition config_minus5 : WT_CONFIG_ARG := <["keyid" := bytes "-5"]> ∅.

(** A heap in which no request is granted. *)
Definition exhausted : heap := Heap ∅ (fun _ => false) 0 0.

(** ** Termination and registration *)

(** [free (p)] as [rotn_terminate] uses it, without a test for NULL:
    [free (NULL)] does nothing, and releasing a block that is not live
    (a second [free] of it) is undefined, which is [None]. *)
Definition free_ptr (p : option nat) (h : heap) : option heap :=
  match p with
  | None => Some h
  | Some b => if decide (b ∈ live h) then Some (free b h) else None
  end.

(** [rotn_terminate] on the instance in block [self] with fields [e]:
    the return code and the heap, or [None] when a [free] is undefined. *)
Definition rotn_terminate (self : nat) (e : ROTN_ENCRYPTOR) (h : heap)
    : option (Z * heap) :=
  h ← free_ptr (blk <$> secretkey e) h;
  h ← free_ptr (blk <$> keyid e) h;
  h ← free_ptr (blk <$> shift_forw e) h;
  h ← free_ptr (blk <$> shift_back e) h;
  h ← free_ptr (Some self) h;
  Some (0, h).

(** The method table [WT_ENCRYPTOR] at the head of the structure. *)
Record WT_ENCRYPTOR := MethodTable {
  encrypt : ROTN_ENCRYPTOR -> option (list Z) -> Z -> Z -> M Z;
  decrypt : ROTN_ENCRYPTOR -> option (list Z) -> Z -> Z -> M Z;
  sizing : ROTN_ENCRYPTOR -> Z * Z;
  customize : ROTN_ENCRYPTOR -> WT_CONFIG_ARG -> WT_CONFIG_ITEM -> heap
              -> customized;
  terminate : nat -> ROTN_ENCRYPTOR -> heap -> option (Z * heap)
}.

(** The host's connection: the extension API it hands out and its
    answer to [add_encryptor (connection, name, encryptor, NULL)]. *)
Record WT_CONNECTION := Connection {
  get_extension_api : WT_EXTENSION_API;
  add_encryptor : string -> nat -> WT_ENCRYPTOR -> ROTN_ENCRYPTOR -> Z
}.

(** [wiredtiger_extension_init]: the return code, the structure handed to
    [add_encryptor] (its block, method table and fields; [None] when the
    host was not called) and the heap. *)
Definition wiredtiger_extension_init (connection : WT_CONNECTION) (h : heap)
    : Z * option (nat * WT_ENCRYPTOR * ROTN_ENCRYPTOR) * heap :=
  match calloc 1 sizeof_ROTN_ENCRYPTOR h with
  | (None, h) => (errno h, None, h)
  | (Some self, h) =>
      let methods :=
        MethodTable rotn_encrypt rotn_decrypt rotn_sizing
                    rotn_customize rotn_terminate in
      let re :=
        RotnEncryptor (get_extension_api connection) 0 None None None None 0 in
      (add_encryptor connection "rotn" self methods re,
       Some (self, methods, re), h)
  end.

(** The pointer fields of an instance refer to blocks that differ from
    each other and from the instance [self]. *)
Definition separate (self : nat) (re : ROTN_ENCRYPTOR) : Prop :=
  (self ∉ owned re)
  /\ (ptr_set (keyid re) ## ptr_set (secretkey re))
  /\ (ptr_set (keyid re) ∪ ptr_set (secretkey re) ## ptr_set (shift_forw re))
  /\ (ptr_set (keyid re) ∪ ptr_set (secretkey re) ∪ ptr_set (shift_forw re)
      ## ptr_set (shift_back re)).

(** A connection that accepts every registration, for the examples. *)
Definition host_connection : WT_CONNECTION :=
  Connection host_api (fun _ _ _ _ => 0).

(** * Properties *)

(** ** The library model on examples *)

Example atoi_13 : atoi (bytes "13") = 13.
Proof. reflexivity. Qed.

Example atoi_neg : atoi (bytes "  -7,") = -7.
Proof. reflexivity. Qed.

Example atoi_word : atoi (bytes "abc") = 0.
Proof. reflexivity. Qed.

(** ** Wrap-around arithmetic *)

Ltac wrap_arith :=
  unfold u32, u8, usize in *;
  change (2 ^ 8) with 256 in *;
  change (2 ^ 32) with 4294967296 in *;
  change (2 ^ 64) with 18446744073709551616 in *;
  Z.div_mod_to_equations; lia.

Lemma u32_small x : 0 <= x < 2 ^ 32 -> u32 x = x.
Proof. intros. wrap_arith. Qed.

Lemma usize_small x : 0 <= x < 2 ^ 64 -> usize x = x.
Proof. intros. wrap_arith. Qed.

Lemma u8_range x : 0 <= u8 x < 256.
Proof. wrap_arith. Qed.

Lemma islower_spec c : islower c = true <-> 97 <= c <= 122.
Proof. unfold islower. rewrite andb_true_iff, !Z.leb_le. tauto. Qed.

Lemma isupper_spec c : isupper c = true <-> 65 <= c <= 90.
Proof. unfold isupper. rewrite andb_true_iff, !Z.leb_le. tauto. Qed.

Lemma isalpha_spec c : isalpha c = true <-> 97 <= c <= 122 \/ 65 <= c <= 90.
Proof.
  unfold isalpha. rewrite orb_true_iff, islower_spec, isupper_spec. tauto.
Qed.

Lemma upper_not_lower c : isalpha c = true -> islower c = false -> isupper c = true.
Proof. unfold isalpha. intros H1 H2. rewrite H2 in H1. exact H1. Qed.

(** A rotated letter stays within its alphabet, whatever the amount. *)
Lemma rotate_letter_range base rotn c :
  0 <= base <= 200 -> base <= c <= base + 25 ->
  base <= rotate_letter base rotn c <= base + 25.
Proof. intros. unfold rotate_letter. wrap_arith. Qed.

(** Rotating by [n] and then by [26 - n] gives the letter back. *)
Lemma rotate_letter_inverse base n c :
  0 <= base <= 200 -> base <= c <= base + 25 -> 0 <= n <= 25 ->
  rotate_letter base (u32 (26 - n)) (rotate_letter base n c) = c.
Proof. intros. unfold rotate_letter. wrap_arith. Qed.

Lemma rotate_byte_inverse n c :
  0 <= n <= 25 -> rotate_byte (u32 (26 - n)) (rotate_byte n c) = c.
Proof.
  intros Hn. unfold rotate_byte at 2.
  destruct (isalpha c) eqn:Ha.
  - destruct (islower c) eqn:Hl.
    + apply islower_spec in Hl.
      pose proof (rotate_letter_range 97 n c ltac:(lia) ltac:(lia)) as Hr.
      unfold rotate_byte.
      replace (isalpha (rotate_letter 97 n c)) with true
        by (symmetry; apply isalpha_spec; lia).
      replace (islower (rotate_letter 97 n c)) with true
        by (symmetry; apply islower_spec; lia).
      apply rotate_letter_inverse; lia.
    + pose proof (upper_not_lower c Ha Hl) as Hu. apply isupper_spec in Hu.
      pose proof (rotate_letter_range 65 n c ltac:(lia) ltac:(lia)) as Hr.
      unfold rotate_byte.
      replace (isalpha (rotate_letter 65 n c)) with true
        by (symmetry; apply isalpha_spec; lia).
      replace (islower (rotate_letter 65 n c)) with false
        by (symmetry; apply not_true_is_false; rewrite islower_spec; lia).
      apply rotate_letter_inverse; lia.
  - unfold rotate_byte. now rewrite Ha.
Qed.

(** A shift and the opposite shift cancel on every byte. *)
Lemma shift_inverse c f b :
  0 <= c < 256 -> u8 (f + b) = 0 -> u8 (u8 (c + f) + b) = c.
Proof. intros. wrap_arith. Qed.

(** ** The world *)

Lemma set_dst_id w : set_dst (dst w) w = w.
Proof. now destruct w. Qed.

Lemma set_dst_set_dst d d' w : set_dst d (set_dst d' w) = set_dst d w.
Proof. reflexivity. Qed.

Lemma dst_set_dst d w : dst (set_dst d w) = d.
Proof. reflexivity. Qed.

(** ** Loops over the destination buffer *)

Lemma length_apply_range f buf n : forall i d,
  length (apply_range f buf i n d) = length d.
Proof.
  induction n as [|n IH]; intros i d; simpl; [done|].
  now rewrite IH, length_insert.
Qed.

Lemma apply_range_lookup f buf n : forall i d (k : nat),
  0 <= buf -> 0 <= i ->
  buf + i + Z.of_nat n <= Z.of_nat (length d) ->
  apply_range f buf i n d !! k =
    if decide (buf + i <= Z.of_nat k < buf + i + Z.of_nat n)
    then f (Z.of_nat k - buf) <$> d !! k
    else d !! k.
Proof.
  induction n as [|n IH]; intros i d k Hb Hi Hlen; simpl.
  - case_decide; [lia | done].
  - rewrite IH by (rewrite ?length_insert; lia).
    destruct (decide (k = Z.to_nat (buf + i))) as [->|Hne].
    + rewrite list_lookup_insert_eq by lia.
      rewrite decide_False by lia. rewrite decide_True by lia.
      destruct (d !! Z.to_nat (buf + i)) as [c|] eqn:Hc.
      * simpl. f_equal. f_equal. lia.
      * apply lookup_ge_None in Hc. lia.
    + rewrite list_lookup_insert_ne by done.
      repeat case_decide; try done; lia.
Qed.

Section Loop.
Variables (f : Z -> Z -> Z) (body : Z -> M unit) (buf len : Z).
Hypothesis Hbuf : 0 <= buf.
Hypothesis Hbody : forall i w c,
  0 <= i < len -> dst w !! Z.to_nat (buf + i) = Some c ->
  body i w = Ok tt (set_dst (<[Z.to_nat (buf + i) := f i c]> (dst w)) w).

(** With a bound below 2^32 the counter does not wrap: the loop runs its
    remaining iterations and returns. *)
Lemma for_u32_run : forall (n fuel : nat) (i : Z) (w : world),
  len < 2 ^ 32 -> 0 <= i -> i + Z.of_nat n = len -> (n <= fuel)%nat ->
  buf + len <= Z.of_nat (length (dst w)) ->
  for_u32 fuel len body i w
    = Ok tt (set_dst (apply_range f buf i n (dst w)) w).
Proof using Hbuf Hbody.
  induction n as [|n IH]; intros fuel i w Hlen Hi Hn Hfuel Hd.
  - destruct fuel; simpl; rewrite (proj2 (Z.ltb_ge i len)) by lia;
      unfold ret; now rewrite set_dst_id.
  - destruct fuel as [|fuel]; [lia|]. simpl.
    rewrite (proj2 (Z.ltb_lt i len)) by lia.
    destruct (dst w !! Z.to_nat (buf + i)) as [c|] eqn:Hc;
      [|apply lookup_ge_None in Hc; lia].
    unfold bind. rewrite (Hbody i w c) by (done || lia).
    rewrite u32_small by lia.
    rewrite IH by (rewrite ?dst_set_dst, ?length_insert; lia).
    now rewrite dst_set_dst, set_dst_set_dst.
Qed.
End Loop.

(** With a bound of 2^32 or more the [uint32_t] counter never reaches it:
    whatever the fuel, the loop does not return. *)
Lemma for_u32_wraps body len :
  2 ^ 32 <= len ->
  forall fuel i w a w', 0 <= i < 2 ^ 32 -> for_u32 fuel len body i w <> Ok a w'.
Proof.
  intros Hlen. induction fuel as [|fuel IH]; intros i w a w' Hi; simpl;
    rewrite (proj2 (Z.ltb_lt i len)) by lia.
  - discriminate.
  - unfold bind. destruct (body i w) as [[] w1|]; [|discriminate].
    apply IH. wrap_arith.
Qed.

(** ** The transforms on the whole buffer *)

Lemma do_rotate_run buf len rotn w :
  0 <= buf -> 0 <= len < 2 ^ 32 -> buf + len <= Z.of_nat (length (dst w)) ->
  do_rotate buf len rotn w
    = Ok tt (set_dst (apply_range (fun _ c => rotate_byte rotn c)
                                  buf 0 (Z.to_nat len) (dst w)) w).
Proof.
  intros Hb Hl Hd. unfold do_rotate.
  apply for_u32_run; try lia.
  intros i w1 c Hi Hc. unfold bind, load.
  rewrite (proj2 (Z.ltb_ge (buf + i) 0)) by lia. rewrite Hc.
  assert (Hin : (0 <=? buf + i) && (buf + i <? Z.of_nat (length (dst w1))) = true).
  { apply lookup_lt_Some in Hc. apply andb_true_iff.
    rewrite Z.leb_le, Z.ltb_lt. lia. }
  unfold rotate_byte, store.
  destruct (isalpha c); [destruct (islower c)|]; rewrite ?Hin; try done.
  unfold ret. now rewrite list_insert_id, set_dst_id.
Qed.

(** On 2^32 bytes or more [do_rotate] and [do_shift] do not return. *)
Lemma do_rotate_large buf len rotn w a w' :
  2 ^ 32 <= len -> do_rotate buf len rotn w <> Ok a w'.
Proof. intros Hlen. apply for_u32_wraps; [exact Hlen | lia]. Qed.

Lemma do_shift_large buf len shift shiftlen w a w' :
  2 ^ 32 <= len -> do_shift buf len shift shiftlen w <> Ok a w'.
Proof. intros Hlen. apply for_u32_wraps; [exact Hlen | lia]. Qed.

Lemma do_shift_run buf len t shiftlen w :
  0 <= buf -> 0 <= len < 2 ^ 32 -> buf + len <= Z.of_nat (length (dst w)) ->
  0 < shiftlen -> shiftlen = Z.of_nat (length (data t)) ->
  do_shift buf len (Some t) shiftlen w
    = Ok tt (set_dst (apply_range (shift_byte (data t) shiftlen)
                                  buf 0 (Z.to_nat len) (dst w)) w).
Proof.
  intros Hb Hl Hd Hs Hst. unfold do_shift.
  apply for_u32_run; try lia.
  intros i w1 c Hi Hc. unfold bind, load.
  rewrite (proj2 (Z.ltb_ge (buf + i) 0)) by lia. rewrite Hc.
  rewrite (proj2 (Z.eqb_neq shiftlen 0)) by lia.
  pose proof (Z.mod_pos_bound i shiftlen Hs) as Hm.
  unfold index. rewrite (proj2 (Z.ltb_ge (i mod shiftlen) 0)) by lia.
  destruct (data t !! Z.to_nat (i mod shiftlen)) as [s|] eqn:Hsb;
    [|apply lookup_ge_None in Hsb; lia].
  unfold store, shift_byte. rewrite Hsb. simpl.
  apply lookup_lt_Some in Hc.
  rewrite (proj2 (Z.leb_le 0 (buf + i))) by lia.
  now rewrite (proj2 (Z.ltb_lt (buf + i) _)) by lia.
Qed.

(** ** The header *)

Lemma for_int_fill d n : forall i w,
  0 <= d + i -> d + i + Z.of_nat n <= Z.of_nat (length (dst w)) ->
  exists w',
    for_int n i (fun i => let* r := random in store (d + i) (u8 r)) w = Ok tt w'
    /\ filled (d + i) (d + i + Z.of_nat n) w w'.
Proof.
  induction n as [|n IH]; intros i w Hlo Hhi; simpl.
  - exists w. repeat split; auto.
  - unfold bind at 1. unfold bind at 1. unfold random, store. simpl.
    rewrite (proj2 (Z.leb_le 0 (d + i))) by lia.
    rewrite (proj2 (Z.ltb_lt (d + i) _)) by lia. simpl.
    match goal with |- context [for_int n (i + 1) _ ?w1] =>
      destruct (IH (i + 1) w1) as (w' & Hrun & Hlen & Hout & Hres & Herr)
    end; simpl; rewrite ?length_insert; try lia.
    exists w'. split; [exact Hrun|]. simpl in *.
    rewrite length_insert in Hlen.
    repeat split; auto.
    intros k Hk. rewrite Hout by lia.
    apply list_lookup_insert_ne. lia.
Qed.

Lemma make_cksum_run d w :
  0 <= d -> d + CHKSUM_LEN <= Z.of_nat (length (dst w)) ->
  exists w', make_cksum d w = Ok 0 w' /\ filled d (d + CHKSUM_LEN) w w'.
Proof.
  intros Hd Hlen. unfold make_cksum, CHKSUM_LEN in *.
  destruct (for_int_fill d (Z.to_nat 4) 0 w) as (w' & Hrun & Hf);
    [lia | simpl; lia |].
  exists w'. unfold bind at 1. rewrite Hrun. split; [done|].
  destruct Hf as (Hl & Ho & Hr & He). repeat split; auto.
  intros k Hk. apply Ho. lia.
Qed.

Lemma make_iv_run d w :
  0 <= d -> d + IV_LEN <= Z.of_nat (length (dst w)) ->
  exists w', make_iv d w = Ok 0 w' /\ filled d (d + IV_LEN) w w'.
Proof.
  intros Hd Hlen. unfold make_iv, IV_LEN in *.
  destruct (for_int_fill d (Z.to_nat 16) 0 w) as (w' & Hrun & Hf);
    [lia | simpl; lia |].
  exists w'. unfold bind at 1. rewrite Hrun. split; [done|].
  destruct Hf as (Hl & Ho & Hr & He). repeat split; auto.
  intros k Hk. apply Ho. lia.
Qed.

(** ** Encrypt and decrypt, byte by byte *)

Lemma encrypt_transform_run e buf len w :
  tables_ok e ->
  0 <= buf -> 0 <= len < 2 ^ 32 -> buf + len <= Z.of_nat (length (dst w)) ->
  (if shift_len e =? 0
   then do_rotate buf len (rot_N e)
   else do_shift buf len (shift_forw e) (shift_len e)) w
  = Ok tt (set_dst (apply_range (enc_byte e) buf 0 (Z.to_nat len) (dst w)) w).
Proof.
  intros [H0 | (Hpos & f & b & Hf & Hb & Hlf & Hlb)] Hbuf Hlen Hd.
  - unfold enc_byte. rewrite H0. simpl. now apply do_rotate_run.
  - unfold enc_byte. rewrite (proj2 (Z.eqb_neq _ 0)) by lia.
    rewrite Hf. simpl. now apply do_shift_run.
Qed.

Lemma decrypt_transform_run e buf len w :
  tables_ok e ->
  0 <= buf -> 0 <= len < 2 ^ 32 -> buf + len <= Z.of_nat (length (dst w)) ->
  (if shift_len e =? 0
   then do_rotate buf len (u32 (26 - rot_N e))
   else do_shift buf len (shift_back e) (shift_len e)) w
  = Ok tt (set_dst (apply_range (dec_byte e) buf 0 (Z.to_nat len) (dst w)) w).
Proof.
  intros [H0 | (Hpos & f & b & Hf & Hb & Hlf & Hlb)] Hbuf Hlen Hd.
  - unfold dec_byte. rewrite H0. simpl. now apply do_rotate_run.
  - unfold dec_byte. rewrite (proj2 (Z.eqb_neq _ 0)) by lia.
    rewrite Hb. simpl. now apply do_shift_run.
Qed.

(** [rotn_encrypt] on a source of [src_len] bytes below 2^32 and a
    destination of at least [src_len + 20] bytes: it returns 0, reports
    [dst_len], and leaves the transformed text behind the header. *)
Lemma rotn_encrypt_run e s src_len dst_len w :
  tables_ok e ->
  src_len = Z.of_nat (length s) -> src_len < 2 ^ 32 ->
  src_len + 20 <= dst_len -> dst_len <= Z.of_nat (length (dst w)) ->
  exists w',
    rotn_encrypt e (Some s) src_len dst_len w = Ok 0 w'
    /\ result_len w' = dst_len
    /\ stderr w' = stderr w
    /\ length (dst w') = length (dst w)
    /\ (forall j : nat, (j < length s)%nat ->
          dst w' !! (20 + j)%nat = enc_byte e (Z.of_nat j) <$> s !! j)
    /\ (forall k : nat, (20 + length s <= k)%nat -> dst w' !! k = dst w !! k).
Proof.
  intros Hok Hsl Hlt Hroom Hbuf. unfold rotn_encrypt, CHKSUM_LEN, IV_LEN.
  assert (Hsz : usize (usize (src_len + 4) + 16) = src_len + 20).
  { rewrite (usize_small (src_len + 4)) by lia. rewrite usize_small; lia. }
  rewrite Hsz. rewrite (proj2 (Z.ltb_ge dst_len (src_len + 20))) by lia.
  unfold bind at 1. unfold memcpy.
  rewrite (proj2 (Z.leb_le 0 src_len)) by lia.
  rewrite (proj2 (Z.leb_le (0 + src_len) _)) by lia.
  rewrite (proj2 (Z.leb_le (4 + 16 + src_len) _)) by lia. simpl andb. cbv iota.
  set (d1 := take (Z.to_nat (4 + 16)) (dst w)
             ++ take (Z.to_nat src_len) (drop (Z.to_nat 0) s)
             ++ drop (Z.to_nat (4 + 16 + src_len)) (dst w)).
  assert (Hd1 : d1 = take 20 (dst w) ++ s ++ drop (20 + length s) (dst w)).
  { unfold d1. change (Z.to_nat (4 + 16)) with 20%nat.
    change (Z.to_nat 0) with 0%nat. rewrite drop_0.
    rewrite (take_ge s) by lia. do 3 f_equal. lia. }
  assert (Hl1 : length d1 = length (dst w)).
  { rewrite Hd1, !length_app, length_take, length_drop. lia. }
  unfold bind at 1.
  rewrite (encrypt_transform_run e (4 + 16) src_len (set_dst d1 w))
    by (rewrite ?dst_set_dst; (done || lia)).
  rewrite dst_set_dst, set_dst_set_dst.
  set (d2 := apply_range (enc_byte e) (4 + 16) 0 (Z.to_nat src_len) d1).
  assert (Hl2 : length d2 = length (dst w)).
  { unfold d2. now rewrite length_apply_range. }
  destruct (make_cksum_run 0 (set_dst d2 w)) as (w3 & Hck & Hl3 & Ho3 & Hr3 & He3);
    [lia | rewrite dst_set_dst; unfold CHKSUM_LEN; lia |].
  unfold bind at 1. rewrite Hck.
  rewrite dst_set_dst in Hl3.
  destruct (make_iv_run (0 + 4) w3) as (w4 & Hiv & Hl4 & Ho4 & Hr4 & He4);
    [lia | unfold IV_LEN; lia |].
  unfold bind at 1. rewrite Hiv.
  unfold bind, set_result_len, ret.
  eexists. split; [reflexivity|]. cbn [result_len stderr dst].
  assert (Htail : forall k : nat, (20 <= k)%nat -> dst w4 !! k = d2 !! k).
  { intros k Hk. rewrite Ho4 by (unfold IV_LEN; lia).
    rewrite Ho3 by (unfold CHKSUM_LEN; lia). now rewrite dst_set_dst. }
  repeat split.
  - rewrite He4, He3. reflexivity.
  - lia.
  - intros j Hj. rewrite Htail by lia. unfold d2.
    rewrite apply_range_lookup by lia.
    rewrite decide_True by lia.
    rewrite Hd1, lookup_app_r by (rewrite length_take; lia).
    rewrite length_take, lookup_app_l by lia.
    replace (20 + j - 20 `min` length (dst w))%nat with j by lia.
    f_equal. f_equal. lia.
  - intros k Hk. rewrite Htail by lia. unfold d2.
    rewrite apply_range_lookup by lia.
    rewrite decide_False by lia.
    rewrite Hd1, lookup_app_r by (rewrite length_take; lia).
    rewrite length_take, lookup_app_r by lia.
    rewrite lookup_drop. f_equal. lia.
Qed.

(** [rotn_decrypt] on a source that holds [dst_len] bytes behind its
    header: it returns 0 and leaves the inverse transform of those bytes
    in the destination. *)
Lemma rotn_decrypt_run e s src_len dst_len w :
  tables_ok e ->
  20 <= src_len < 2 ^ 64 -> src_len - 20 <= dst_len < 2 ^ 32 ->
  20 + dst_len <= Z.of_nat (length s) ->
  dst_len <= Z.of_nat (length (dst w)) ->
  exists w',
    rotn_decrypt e (Some s) src_len dst_len w = Ok 0 w'
    /\ result_len w' = dst_len
    /\ stderr w' = stderr w
    /\ length (dst w') = length (dst w)
    /\ (forall j : nat, Z.of_nat j < dst_len ->
          dst w' !! j = dec_byte e (Z.of_nat j) <$> s !! (20 + j)%nat).
Proof.
  intros Hok Hsl Hdl Hsrc Hbuf. unfold rotn_decrypt, CHKSUM_LEN, IV_LEN.
  assert (Hsz : usize (usize (src_len - 4) - 16) = src_len - 20).
  { rewrite (usize_small (src_len - 4)) by lia. rewrite usize_small; lia. }
  rewrite Hsz. rewrite (proj2 (Z.ltb_ge dst_len (src_len - 20))) by lia.
  unfold bind at 1. unfold memcpy.
  rewrite (proj2 (Z.leb_le 0 dst_len)) by lia.
  rewrite (proj2 (Z.leb_le (4 + 16 + dst_len) _)) by lia.
  rewrite (proj2 (Z.leb_le (0 + dst_len) _)) by lia. simpl andb. cbv iota.
  set (d1 := take (Z.to_nat 0) (dst w)
             ++ take (Z.to_nat dst_len) (drop (Z.to_nat (4 + 16)) s)
             ++ drop (Z.to_nat (0 + dst_len)) (dst w)).
  assert (Hd1 : d1 = take (Z.to_nat dst_len) (drop 20 s)
                     ++ drop (Z.to_nat dst_len) (dst w)).
  { unfold d1. change (Z.to_nat 0) with 0%nat. rewrite take_0. simpl.
    change (Z.to_nat (4 + 16)) with 20%nat. do 2 f_equal. }
  assert (Hl1 : length d1 = length (dst w)).
  { rewrite Hd1, !length_app, length_take, !length_drop. lia. }
  unfold bind at 1.
  rewrite (decrypt_transform_run e 0 dst_len (set_dst d1 w))
    by (rewrite ?dst_set_dst; (done || lia)).
  rewrite dst_set_dst, set_dst_set_dst.
  unfold bind, set_result_len, ret.
  eexists. split; [reflexivity|]. cbn [result_len stderr dst].
  repeat split.
  - now rewrite dst_set_dst, length_apply_range.
  - intros j Hj. rewrite dst_set_dst, apply_range_lookup by lia.
    rewrite decide_True by lia.
    rewrite Hd1, lookup_app_l by (rewrite length_take, length_drop; lia).
    rewrite lookup_take_lt by lia. rewrite lookup_drop.
    f_equal. f_equal. lia.
Qed.

(** The round trip, for any instance on whose bytes decrypt undoes
    encrypt: the destination of encrypt is sized by [rotn_sizing], the
    one of decrypt holds the text exactly. *)
Lemma roundtrip_run e (b : list Z) w1 w2 :
  tables_ok e ->
  Z.of_nat (length b) < 2 ^ 32 ->
  Z.of_nat (length (dst w1)) = Z.of_nat (length b) + 20 ->
  length (dst w2) = length b ->
  (forall (j : nat) c, b !! j = Some c ->
     dec_byte e (Z.of_nat j) (enc_byte e (Z.of_nat j) c) = c) ->
  exists w1' w2',
    rotn_encrypt e (Some b) (Z.of_nat (length b))
                 (Z.of_nat (length b) + 20) w1 = Ok 0 w1'
    /\ rotn_decrypt e (Some (dst w1')) (Z.of_nat (length b) + 20)
                    (Z.of_nat (length b)) w2 = Ok 0 w2'
    /\ dst w2' = b
    /\ (forall j : nat, (j < length b)%nat ->
          dst w2' !! j = dec_byte e (Z.of_nat j) <$> dst w1' !! (20 + j)%nat).
Proof.
  intros Hok Hlt Hd1 Hd2 Hinv.
  destruct (rotn_encrypt_run e b (Z.of_nat (length b))
              (Z.of_nat (length b) + 20) w1)
    as (w1' & Henc & _ & _ & Hl1 & Htext & _); try (done || lia).
  destruct (rotn_decrypt_run e (dst w1') (Z.of_nat (length b) + 20)
              (Z.of_nat (length b)) w2)
    as (w2' & Hdec & _ & _ & Hl2 & Hback); try (done || lia).
  exists w1', w2'.
  split; [exact Henc|]. split; [exact Hdec|]. split.
  - apply list_eq. intros j.
    destruct (decide (j < length b)%nat) as [Hj|Hj].
    + rewrite Hback by lia. rewrite Htext by lia.
      destruct (b !! j) as [c|] eqn:Hc; simpl; [|done].
      f_equal. now apply Hinv.
    + rewrite (proj2 (lookup_ge_None b j)) by lia.
      apply lookup_ge_None. lia.
  - intros j Hj. apply Hback. lia.
Qed.

(** ** The shift tables *)

Lemma forw_back_cancel k c : u8 (forw_byte k c + back_byte k c) = 0.
Proof. unfold forw_byte, back_byte. generalize (key_base k c). intros. wrap_arith. Qed.

Lemma shift_tables_some n : forall i secret k forw back f b,
  shift_tables n i secret k forw back = Some (f, b) ->
  0 <= i -> i + Z.of_nat n <= Z.of_nat (length forw) ->
  length forw = length back ->
  length f = length forw /\ length b = length back
  /\ (forall j : nat, Z.of_nat j < i -> f !! j = forw !! j /\ b !! j = back !! j)
  /\ (forall j : nat, i <= Z.of_nat j < i + Z.of_nat n ->
        isalpha (default 0 (secret !! j)) = true
        /\ f !! j = Some (forw_byte k (default 0 (secret !! j)))
        /\ b !! j = Some (back_byte k (default 0 (secret !! j)))).
Proof.
  induction n as [|n IH]; intros i secret k forw back f b Hrun Hi Hlen Heq.
  - simpl in Hrun. injection Hrun as <- <-.
    split; [done|]. split; [done|]. split; [done|]. intros j Hj. lia.
  - simpl in Hrun.
    set (c := default 0 (secret !! Z.to_nat i)) in *.
    assert (Hc : isalpha c = true
                 /\ (if islower c then Some 97
                     else if isupper c then Some 65 else None)
                    = Some (if islower c then 97 else 65)).
    { unfold isalpha. destruct (islower c); [done|].
      destruct (isupper c); [done|discriminate]. }
    destruct Hc as [Halpha Hbase]. rewrite Hbase in Hrun.
    apply IH in Hrun; [|lia|rewrite length_insert; lia
                       |rewrite !length_insert; lia].
    rewrite !length_insert in Hrun.
    destruct Hrun as (Hlf & Hlb & Hbefore & Hrange).
    split; [done|]. split; [done|]. split.
    + intros j Hj. destruct (Hbefore j) as [Hf Hb]; [lia|].
      rewrite Hf, Hb. split; apply list_lookup_insert_ne; lia.
    + intros j Hj.
      destruct (decide (Z.of_nat j = i)) as [Hji|Hji];
        [|apply Hrange; lia].
      destruct (Hbefore j) as [Hf Hb]; [lia|]. rewrite Hf, Hb.
      replace j with (Z.to_nat i) by lia. fold c.
      rewrite !list_lookup_insert_eq by lia. done.
Qed.

Lemma shift_tables_alpha n : forall i secret k forw back,
  (forall j : nat, i <= Z.of_nat j < i + Z.of_nat n ->
     isalpha (default 0 (secret !! j)) = true) ->
  0 <= i ->
  exists f b, shift_tables n i secret k forw back = Some (f, b).
Proof.
  induction n as [|n IH]; intros i secret k forw back Halpha Hi; simpl.
  - eauto.
  - pose proof (Halpha (Z.to_nat i) ltac:(lia)) as Ha.
    unfold isalpha in Ha.
    destruct (islower _); [|simpl in Ha; rewrite Ha];
      apply IH; try lia; intros j Hj; apply Halpha; lia.
Qed.

Lemma shift_tables_reject n : forall i secret k forw back (j : nat),
  i <= Z.of_nat j < i + Z.of_nat n ->
  isalpha (default 0 (secret !! j)) = false ->
  0 <= i ->
  shift_tables n i secret k forw back = None.
Proof.
  induction n as [|n IH]; intros i secret k forw back j Hj Hbad Hi; simpl.
  - lia.
  - destruct (decide (Z.of_nat j = i)) as [Hji|Hji].
    + replace (Z.to_nat i) with j by lia.
      unfold isalpha in Hbad. apply orb_false_iff in Hbad as [-> ->]. done.
    + destruct (islower _); [|destruct (isupper _); [|done]];
        apply (IH _ _ _ _ _ j); auto; lia.
Qed.

(** ** Customization: what a successful call has built *)

Lemma stash_keyid_next cfg re h re' h' :
  stash_keyid cfg re h = Next re' h' ->
  wt_api re' = wt_api re /\ secretkey re' = secretkey re
  /\ shift_forw re' = shift_forw re /\ shift_back re' = shift_back re
  /\ shift_len re' = shift_len re.
Proof.
  unfold stash_keyid. destruct (config_get _ _ _) as [r it].
  destruct (_ && _); [destruct (malloc _ _) as [[p|] h1]|];
    intros H; inversion H; subst; done.
Qed.

Lemma stash_secret_next cfg k re h re' h' secret :
  config_get (wt_api re) cfg "secretkey" = (0, secret) ->
  len secret <> 0 ->
  stash_secret cfg k re h = Next re' h' ->
  built_from secret k re' /\ rot_N re' = rot_N re.
Proof.
  intros Hcfg Hlen. unfold stash_secret. rewrite Hcfg.
  rewrite Z.eqb_refl, (proj2 (Z.eqb_neq _ 0)) by done. simpl andb. cbv iota.
  destruct (malloc _ h) as [[ps|] h1]; [|discriminate].
  destruct (malloc _ h1) as [[pf|] h2]; [|discriminate].
  destruct (malloc _ h2) as [[pb|] h3]; [|discriminate].
  destruct (shift_tables _ _ _ _ _ _) as [[forw back]|] eqn:Htab;
    [|discriminate].
  intros H. injection H as <- <-.
  apply shift_tables_some in Htab;
    [|lia | rewrite length_replicate; unfold len; lia
     | now rewrite !length_replicate].
  rewrite !length_replicate in Htab.
  destruct Htab as (Hlf & Hlb & _ & Hrange).
  split; [|done]. split; [done|].
  exists (Buffer pf forw), (Buffer pb back). simpl.
  unfold len in *.
  split; [done|]. split; [done|]. split; [lia|]. split; [lia|].
  intros j c Hc. apply lookup_lt_Some in Hc as Hj.
  destruct (Hrange j) as (Ha & Hf & Hb); [lia|].
  rewrite Hc in Ha, Hf, Hb. done.
Qed.

Lemma customize_ok_inv orig cfg keyid0 h self e h' :
  rotn_customize orig cfg keyid0 h = (0, Some (self, e), h') ->
  exists h0 re1 h1 re2,
    0 <= atoi (str keyid0)
    /\ stash_keyid cfg (set_secretkey None (set_keyid None orig)) h0
       = Next re1 h1
    /\ stash_secret cfg (atoi (str keyid0)) re1 h1 = Next re2 h'
    /\ e = set_rot_N (u32 (atoi (str keyid0))) re2.
Proof.
  unfold rotn_customize.
  destruct (calloc _ _ h) as [[p|] h0]; [|discriminate].
  destruct (_ <? 0) eqn:Hneg; [discriminate|].
  destruct (stash_keyid _ _ _) as [re1 h1|] eqn:Hk; [|discriminate].
  destruct (stash_secret _ _ _ _) as [re2 h2|] eqn:Hs; [|discriminate].
  intros H. injection H as <- <- <-.
  exists h0, re1, h1, re2. apply Z.ltb_ge in Hneg. done.
Qed.

Lemma built_from_tables_ok secret k e :
  len secret <> 0 -> built_from secret k e -> tables_ok e.
Proof.
  intros Hlen (Hsl & f & b & Hf & Hb & Hlf & Hlb & _).
  right. unfold len in *. split; [lia|].
  exists f, b. repeat split; auto; lia.
Qed.

(** With a secret in the configuration, a successful call has built the
    tables from that secret and from the number parsed on entry. *)
Lemma customize_built orig cfg keyid0 h self e h' secret :
  rotn_customize orig cfg keyid0 h = (0, Some (self, e), h') ->
  config_get (wt_api orig) cfg "secretkey" = (0, secret) ->
  len secret <> 0 ->
  0 <= atoi (str keyid0)
  /\ built_from secret (atoi (str keyid0)) e
  /\ rot_N e = u32 (atoi (str keyid0)).
Proof.
  intros Hrun Hcfg Hlen.
  apply customize_ok_inv in Hrun as (h0 & re1 & h1 & re2 & Hk & Hsk & Hss & ->).
  apply stash_keyid_next in Hsk as (Hapi & _).
  apply (stash_secret_next _ _ _ _ _ _ secret) in Hss as [Hb _];
    [|rewrite Hapi; exact Hcfg | exact Hlen].
  split; [exact Hk|]. split; [exact Hb|reflexivity].
Qed.

(** ** Customization: allocation *)

Lemma malloc_some size h p h' :
  malloc size h = (Some p, h') ->
  (p ∉ live h) /\ live h' = {[p]} ∪ live h /\ alloc_ok h' = alloc_ok h.
Proof.
  unfold malloc. destruct (alloc_ok h _); [|discriminate].
  intros H. injection H as <- <-. simpl.
  split; [apply is_fresh | done].
Qed.

Lemma malloc_none size h h' :
  malloc size h = (None, h') -> live h' = live h /\ errno h' = ENOMEM.
Proof.
  unfold malloc. destruct (alloc_ok h _); [discriminate|].
  intros H. injection H as <-. done.
Qed.

Lemma malloc_granted size h :
  (forall n, alloc_ok h n = true) ->
  exists p h', malloc size h = (Some p, h')
               /\ (forall n, alloc_ok h' n = true).
Proof.
  intros Hok. unfold malloc. rewrite Hok. eexists _, _.
  split; [reflexivity|]. exact Hok.
Qed.

(** With every request granted, a key number that is not negative and a
    secret of letters, the call succeeds. *)
Lemma customize_succeeds orig cfg keyid0 h secret :
  (forall n, alloc_ok h n = true) ->
  0 <= atoi (str keyid0) ->
  config_get (wt_api orig) cfg "secretkey" = (0, secret) ->
  (forall (j : nat) c, str secret !! j = Some c -> isalpha c = true) ->
  exists self e h', rotn_customize orig cfg keyid0 h = (0, Some (self, e), h').
Proof.
  intros Hok Hk Hcfg Halpha. unfold rotn_customize, calloc.
  destruct (malloc_granted (1 * sizeof_ROTN_ENCRYPTOR) h Hok)
    as (self & h0 & -> & Hok0).
  rewrite (proj2 (Z.ltb_ge _ 0)) by done.
  assert (Hkeyid : exists re1 h1,
    stash_keyid cfg (set_secretkey None (set_keyid None orig)) h0 = Next re1 h1
    /\ wt_api re1 = wt_api orig /\ (forall n, alloc_ok h1 n = true)).
  { unfold stash_keyid. destruct (config_get _ cfg "keyid") as [r it].
    destruct (_ && _).
    - destruct (malloc_granted (usize (len it + 1)) h0 Hok0)
        as (p & h1 & -> & Hok1).
      eexists _, _. split; [reflexivity|]. done.
    - eexists _, _. split; [reflexivity|]. done. }
  destruct Hkeyid as (re1 & h1 & -> & Hapi & Hok1).
  unfold stash_secret. rewrite Hapi, Hcfg.
  destruct (_ && _).
  - destruct (malloc_granted (usize (len secret + 1)) h1 Hok1)
      as (ps & h2 & -> & Hok2).
    destruct (malloc_granted (len secret) h2 Hok2) as (pf & h3 & -> & Hok3).
    destruct (malloc_granted (len secret) h3 Hok3) as (pb & h4 & -> & Hok4).
    set (n := Z.to_nat (len secret)).
    destruct (shift_tables_alpha n 0 (str secret) (atoi (str keyid0))
                (replicate n 0) (replicate n 0)) as (f & b & ->); [|lia|].
    + intros j Hj. destruct (str secret !! j) as [c|] eqn:Hc.
      * simpl. eauto.
      * apply lookup_ge_None in Hc. unfold n, len in Hj. lia.
    + eexists _, _, _. reflexivity.
  - eexists _, _, _. reflexivity.
Qed.

(** ** Customization: what the instance holds *)

Lemma holds_alloc L0 self re h p re' h' :
  holds L0 self re h ->
  p ∉ live h -> live h' = {[p]} ∪ live h -> owned re' = {[p]} ∪ owned re ->
  holds L0 self re' h'.
Proof.
  intros (Hlive & Hself & Hdisj) Hp Hl Ho. unfold holds.
  rewrite Hl, Ho, Hlive. rewrite Hlive in Hp.
  split; [|split]; [set_solver | done | set_solver].
Qed.

Lemma holds_same L0 self re h re' h' :
  holds L0 self re h -> live h' = live h -> owned re' = owned re ->
  holds L0 self re' h'.
Proof. intros H Hl Ho. unfold holds. now rewrite Hl, Ho. Qed.

Lemma customize_err_frees L0 self re ret h :
  holds L0 self re h ->
  exists h', customize_err self re ret h = (EPERM, None, h') /\ live h' = L0.
Proof.
  intros (Hlive & Hself & Hdisj). unfold customize_err.
  eexists. split; [reflexivity|].
  assert (Hfree : forall p h1, live (free_nonnull p h1) = live h1 ∖ ptr_set p).
  { intros [b|] h1; simpl; set_solver. }
  simpl. rewrite !Hfree, Hlive. unfold owned in *.
  generalize dependent (ptr_set (keyid re)).
  generalize dependent (ptr_set (secretkey re)).
  generalize dependent (ptr_set (shift_forw re)).
  generalize dependent (ptr_set (shift_back re)).
  intros A B C D. set_solver.
Qed.

Lemma stash_keyid_holds L0 self cfg re h :
  keyid re = None -> holds L0 self re h ->
  match stash_keyid cfg re h with
  | Next re' h' | GotoErr re' _ h' => holds L0 self re' h'
  end.
Proof.
  intros Hk Hh. unfold stash_keyid.
  destruct (config_get _ _ _) as [r it].
  destruct (_ && _); [|done].
  destruct (malloc _ h) as [[p|] h1] eqn:Hm.
  - apply malloc_some in Hm as (Hfresh & Hl1 & _).
    apply (holds_alloc L0 self re h p); auto.
    unfold owned. simpl. rewrite Hk. simpl. set_solver.
  - apply malloc_none in Hm as (Hl1 & _).
    apply (holds_same L0 self re h); auto.
    unfold owned. simpl. now rewrite Hk.
Qed.

Lemma stash_secret_holds L0 self cfg k re h :
  secretkey re = None -> shift_forw re = None -> shift_back re = None ->
  holds L0 self re h ->
  match stash_secret cfg k re h with
  | Next re' h' | GotoErr re' _ h' => holds L0 self re' h'
  end.
Proof.
  intros Hs Hf Hb Hh. unfold stash_secret.
  destruct (config_get _ _ _) as [r it].
  destruct (_ && _); [|done].
  destruct (malloc _ h) as [[ps|] h1] eqn:Hm1.
  2:{ apply malloc_none in Hm1 as (Hl1 & _).
      apply (holds_same L0 self re h); auto.
      unfold owned. simpl. now rewrite Hs. }
  apply malloc_some in Hm1 as (Hfresh1 & Hl1 & _).
  set (sk := Some (Buffer ps _)).
  assert (Hh1 : holds L0 self (set_secretkey sk re) h1).
  { apply (holds_alloc L0 self re h ps); auto.
    unfold owned. simpl. rewrite Hs. simpl. set_solver. }
  destruct (malloc _ h1) as [[pf|] h2] eqn:Hm2.
  2:{ apply malloc_none in Hm2 as (Hl2 & _).
      apply (holds_same L0 self (set_secretkey sk re) h1); auto.
      unfold owned. simpl. now rewrite Hf. }
  apply malloc_some in Hm2 as (Hfresh2 & Hl2 & _).
  set (sf := Some (Buffer pf _)).
  assert (Hh2 : holds L0 self (set_shift_forw sf (set_secretkey sk re)) h2).
  { apply (holds_alloc L0 self (set_secretkey sk re) h1 pf); auto.
    unfold owned. simpl. rewrite Hf. simpl. set_solver. }
  destruct (malloc _ h2) as [[pb|] h3] eqn:Hm3.
  2:{ apply malloc_none in Hm3 as (Hl3 & _).
      apply (holds_same L0 self (set_shift_forw sf (set_secretkey sk re)) h2);
        auto.
      unfold owned. simpl. now rewrite Hb. }
  apply malloc_some in Hm3 as (Hfresh3 & Hl3 & _).
  set (sb := Some (Buffer pb _)).
  assert (Hh3 : holds L0 self
                  (set_shift_back sb
                     (set_shift_forw sf (set_secretkey sk re))) h3).
  { apply (holds_alloc L0 self
             (set_shift_forw sf (set_secretkey sk re)) h2 pb); auto.
    unfold owned. simpl. rewrite Hb. simpl. set_solver. }
  destruct (shift_tables _ _ _ _ _ _) as [[forw back]|]; [|exact Hh3].
  eapply holds_same; [exact Hh3 | done | done].
Qed.

(** * The properties of the design document *)

(** ** C1: round trip in rotation mode *)

(** C1.  For every buffer [b] of printable bytes (of a length the 32-bit
    loop counter covers) and every rotation amount [n] in [0,25]: under
    an instance with [rot_N = n] and no shift tables, [rotn_encrypt]
    into a destination of [length b + 20] bytes returns 0, [rotn_decrypt]
    of that result into a destination of [length b] bytes returns 0 and
    leaves [b], and each byte decrypt leaves is [rotate_byte (26 - n)] of
    the byte behind the 20-byte header. *)
Theorem rotation_roundtrip (e : ROTN_ENCRYPTOR) (n : Z) (b : list Z)
    (w1 w2 : world) :
  shift_len e = 0 -> rot_N e = n -> 0 <= n <= 25 ->
  Forall (fun c => isprint c = true) b ->
  Z.of_nat (length b) < 2 ^ 32 ->
  Z.of_nat (length (dst w1)) = Z.of_nat (length b) + 20 ->
  length (dst w2) = length b ->
  exists w1' w2',
    rotn_encrypt e (Some b) (Z.of_nat (length b))
                 (Z.of_nat (length b) + 20) w1 = Ok 0 w1'
    /\ rotn_decrypt e (Some (dst w1')) (Z.of_nat (length b) + 20)
                    (Z.of_nat (length b)) w2 = Ok 0 w2'
    /\ dst w2' = b
    /\ (forall j : nat, (j < length b)%nat ->
          dst w2' !! j = rotate_byte (26 - n) <$> dst w1' !! (20 + j)%nat).
Proof.
  intros Hmode Hrot Hn _ Hlen Hd1 Hd2.
  destruct (roundtrip_run e b w1 w2) as (w1' & w2' & He & Hd & Hb & Hj);
    auto.
  - now left.
  - intros j c _. unfold dec_byte, enc_byte. rewrite Hmode, Hrot. simpl.
    now apply rotate_byte_inverse.
  - exists w1', w2'. repeat (split; [assumption|]).
    intros j Hlt. rewrite (Hj j Hlt). unfold dec_byte.
    rewrite Hmode, Hrot. simpl. now rewrite u32_small by lia.
Qed.

Lemma rotation_roundtrip_witness :
  exists w1' w2',
    rotn_encrypt rot13 (Some (bytes "Hello")) 5 25
                 (world_of (replicate 25 0)) = Ok 0 w1'
    /\ rotn_decrypt rot13 (Some (dst w1')) 25 5
                    (world_of (replicate 5 0)) = Ok 0 w2'
    /\ dst w2' = bytes "Hello"
    /\ (forall j : nat, (j < 5)%nat ->
          dst w2' !! j = rotate_byte (26 - 13) <$> dst w1' !! (20 + j)%nat).
Proof.
  apply (rotation_roundtrip rot13 13 (bytes "Hello")
           (world_of (replicate 25 0)) (world_of (replicate 5 0)));
    [reflexivity | reflexivity | lia | repeat constructor
    | simpl; lia | reflexivity | reflexivity].
Defined.

(** The scenario of the header comment: keyid 13, no secret, "Hello". *)
Example rot13_hello :
  exists w',
    rotn_encrypt rot13 (Some (bytes "Hello")) 5 25
                 (world_of (replicate 25 0)) = Ok 0 w'
    /\ drop 20 (dst w') = bytes "Uryyb"
    /\ result_len w' = 25.
Proof. eexists. split; [vm_compute; reflexivity|]. split; reflexivity. Qed.


(** ** C5: rotation preserves case *)

(** C5.  For every window [buf .. buf + len - 1] of the buffer (of a
    length the 32-bit loop counter covers) and every rotation amount,
    [do_rotate] returns and has mapped every lower-case letter of the
    window to a lower-case letter, every upper-case letter to an
    upper-case letter, and left every other byte as it was. *)
Theorem rotate_preserves_case (buf len rotn : Z) (w : world) :
  0 <= buf -> 0 <= len < 2 ^ 32 -> buf + len <= Z.of_nat (length (dst w)) ->
  exists w',
    do_rotate buf len rotn w = Ok tt w'
    /\ length (dst w') = length (dst w)
    /\ forall (i : nat) c, dst w !! i = Some c ->
         exists c',
           dst w' !! i = Some c'
           /\ (islower c = true -> islower c' = true)
           /\ (isupper c = true -> isupper c' = true)
           /\ (isalpha c = false -> c' = c).
Proof.
  intros Hbuf Hlen Hd. rewrite do_rotate_run by done.
  eexists. split; [reflexivity|]. rewrite dst_set_dst.
  split; [apply length_apply_range|].
  intros i c Hc. rewrite apply_range_lookup by lia. rewrite Hc.
  case_decide; simpl; [|exists c; auto].
  exists (rotate_byte rotn c). split; [done|]. unfold rotate_byte, isalpha.
  repeat split.
  - intros Hl. rewrite Hl. simpl. apply islower_spec in Hl.
    apply islower_spec.
    pose proof (rotate_letter_range 97 rotn c). lia.
  - intros Hu. rewrite Hu. apply isupper_spec in Hu.
    replace (islower c) with false
      by (symmetry; apply not_true_is_false; rewrite islower_spec; lia).
    simpl. apply isupper_spec.
    pose proof (rotate_letter_range 65 rotn c). lia.
  - intros Hn. now rewrite Hn.
Qed.

Lemma rotate_preserves_case_witness :
  exists w',
    do_rotate 0 5 13 (world_of (bytes "He-lo")) = Ok tt w'
    /\ length (dst w') = length (dst (world_of (bytes "He-lo")))
    /\ forall (i : nat) c,
         dst (world_of (bytes "He-lo")) !! i = Some c ->
         exists c',
           dst w' !! i = Some c'
           /\ (islower c = true -> islower c' = true)
           /\ (isupper c = true -> isupper c' = true)
           /\ (isalpha c = false -> c' = c).
Proof.
  apply (rotate_preserves_case 0 5 13 (world_of (bytes "He-lo")));
    [lia | lia | simpl; lia].
Defined.

(** ** C4: the length law *)

(** C4, as stated, fails: into a destination of 30 bytes, the encryption
    of the 5 bytes of "Hello" reports 30 bytes, not 5 + 20. *)
Lemma length_law_oversized :
  exists w',
    rotn_encrypt rot13 (Some (bytes "Hello")) 5 30
                 (world_of (replicate 30 0)) = Ok 0 w'
    /\ result_len w' = 30
    /\ result_len w' <> 5 + 20.
Proof. eexists. split; [vm_compute; reflexivity|]. split; [reflexivity|]. simpl. lia. Qed.

(** C4, amended.  For every source [b] that is not NULL (of a length the
    32-bit loop counter covers) and every destination of [dst_len] bytes
    with [dst_len >= length b + 20], [rotn_encrypt] returns 0 and reports
    [dst_len]: the report is [length b + 20] exactly when the destination
    has exactly that size.  [rotn_sizing] reports 20 for every instance. *)
Theorem length_law (e : ROTN_ENCRYPTOR) (b : list Z) (dst_len : Z)
    (w : world) :
  tables_ok e ->
  Z.of_nat (length b) < 2 ^ 32 ->
  Z.of_nat (length b) + 20 <= dst_len ->
  dst_len = Z.of_nat (length (dst w)) ->
  (exists w',
     rotn_encrypt e (Some b) (Z.of_nat (length b)) dst_len w = Ok 0 w'
     /\ result_len w' = dst_len
     /\ (result_len w' = Z.of_nat (length b) + 20
         <-> dst_len = Z.of_nat (length b) + 20))
  /\ forall e', rotn_sizing e' = (0, 20).
Proof.
  intros Hok Hlen Hroom Hd. split; [|reflexivity].
  destruct (rotn_encrypt_run e b (Z.of_nat (length b)) dst_len w)
    as (w' & Hrun & Hres & _); try (done || lia).
  exists w'. split; [exact Hrun|]. split; [exact Hres|]. now rewrite Hres.
Qed.

Lemma length_law_witness :
  (exists w',
     rotn_encrypt rot13 (Some (bytes "Hello")) 5 25
                  (world_of (replicate 25 0)) = Ok 0 w'
     /\ result_len w' = 25
     /\ (result_len w' = 5 + 20 <-> 25 = 5 + 20))
  /\ forall e', rotn_sizing e' = (0, 20).
Proof.
  apply (length_law rot13 (bytes "Hello") 25 (world_of (replicate 25 0)));
    [now left | simpl; lia | simpl; lia | reflexivity].
Defined.

(** ** C8: absent and empty sources *)

(** C8, as stated, fails for a source that is empty but not NULL:
    [rotn_encrypt] returns 0 but has written the 20 header bytes, drawn
    20 random numbers and stored a result length; [rotn_decrypt] does
    not succeed, it prints its diagnostic and returns [ENOMEM]. *)
Lemma empty_source_not_noop :
  (exists w',
     rotn_encrypt rot13 (Some []) 0 20 (world_of (replicate 20 0)) = Ok 0 w'
     /\ dst w' <> dst (world_of (replicate 20 0))
     /\ result_len w' <> result_len (world_of (replicate 20 0))
     /\ rand_pos w' = 20%nat)
  /\ (exists w',
        rotn_decrypt rot13 (Some []) 0 0 (world_of []) = Ok ENOMEM w'
        /\ stderr w' <> stderr (world_of [])).
Proof.
  split; eexists; (split; [vm_compute; reflexivity|]); simpl.
  - repeat split; [discriminate | lia].
  - discriminate.
Qed.

(** C8, amended.  Whenever the source is absent (NULL), [rotn_encrypt]
    and [rotn_decrypt] return 0 and leave the destination, the result
    length, the random generator and stderr as they were. *)
Theorem absent_source_noop (e : ROTN_ENCRYPTOR) (src_len dst_len : Z)
    (w : world) :
  rotn_encrypt e None src_len dst_len w = Ok 0 w
  /\ rotn_decrypt e None src_len dst_len w = Ok 0 w.
Proof. split; reflexivity. Qed.

(** ** C10: a source shorter than the header *)

(** C10.  For a source that is not NULL and has 0 < src_len < 20, the
    bound [src_len - CHKSUM_LEN - IV_LEN] of the size check wraps to
    2^64 - 20 + src_len, and for every destination length below that
    value [rotn_decrypt] prints its diagnostic and returns [ENOMEM]
    without touching the destination or the result length. *)
Theorem short_source_rejected (e : ROTN_ENCRYPTOR) (s : list Z)
    (src_len dst_len : Z) (w : world) :
  0 < src_len < 20 ->
  0 <= dst_len < 2 ^ 64 - 20 + src_len ->
  usize (usize (src_len - CHKSUM_LEN) - IV_LEN) = 2 ^ 64 - 20 + src_len
  /\ exists w',
       rotn_decrypt e (Some s) src_len dst_len w = Ok ENOMEM w'
       /\ dst w' = dst w
       /\ result_len w' = result_len w
       /\ stderr w' = stderr w ++ ["Rotate: ENOMEM ERROR" +:+ newline].
Proof.
  intros Hsrc Hdst.
  assert (Hwrap : usize (usize (src_len - CHKSUM_LEN) - IV_LEN)
                  = 2 ^ 64 - 20 + src_len).
  { unfold CHKSUM_LEN, IV_LEN. wrap_arith. }
  split; [exact Hwrap|].
  unfold rotn_decrypt. rewrite Hwrap.
  rewrite (proj2 (Z.ltb_lt dst_len _)) by lia.
  eexists. split; [reflexivity|]. done.
Qed.

Lemma short_source_rejected_witness :
  usize (usize (7 - CHKSUM_LEN) - IV_LEN) = 2 ^ 64 - 20 + 7
  /\ exists w',
       rotn_decrypt rot13 (Some (replicate 7 0)) 7 4096
                    (world_of (replicate 4096 0)) = Ok ENOMEM w'
       /\ dst w' = dst (world_of (replicate 4096 0))
       /\ result_len w' = result_len (world_of (replicate 4096 0))
       /\ stderr w' = stderr (world_of (replicate 4096 0))
                      ++ ["Rotate: ENOMEM ERROR" +:+ newline].
Proof.
  apply (short_source_rejected rot13 (replicate 7 0) 7 4096
           (world_of (replicate 4096 0))); lia.
Defined.

(** ** C3: the shift tables cancel *)

(** C3.  For every instance a successful [rotn_customize] has built from
    a configuration with a secret, and for every position [i] below the
    secret's length, the entries [shift_forw[i]] and [shift_back[i]]
    exist and their sum is congruent to 0 modulo 256. *)
Theorem shift_tables_cancel (orig : ROTN_ENCRYPTOR) (cfg : WT_CONFIG_ARG)
    (keyid0 secret : WT_CONFIG_ITEM) (h h' : heap) (self : nat)
    (e : ROTN_ENCRYPTOR) (i : nat) :
  rotn_customize orig cfg keyid0 h = (0, Some (self, e), h') ->
  config_get (wt_api orig) cfg "secretkey" = (0, secret) ->
  Z.of_nat i < len secret ->
  shift_len e = len secret
  /\ exists x y,
       table (shift_forw e) !! i = Some x
       /\ table (shift_back e) !! i = Some y
       /\ (x + y) mod 256 = 0.
Proof.
  intros Hrun Hcfg Hi.
  destruct (customize_built orig cfg keyid0 h self e h' secret Hrun Hcfg)
    as (_ & (Hsl & f & b & Hf & Hb & _ & _ & Hentries) & _); [lia|].
  split; [exact Hsl|].
  destruct (str secret !! i) as [c|] eqn:Hc;
    [|apply lookup_ge_None in Hc; unfold len in Hi; lia].
  destruct (Hentries i c Hc) as (_ & Hx & Hy).
  exists (forw_byte (atoi (str keyid0)) c), (back_byte (atoi (str keyid0)) c).
  rewrite Hf, Hb. simpl. split; [exact Hx|]. split; [exact Hy|].
  exact (forw_back_cancel _ c).
Qed.

Lemma shift_tables_cancel_witness :
  shift_len abc_2 = len (ConfigItem (bytes "ABC"))
  /\ exists x y,
       table (shift_forw abc_2) !! 1%nat = Some x
       /\ table (shift_back abc_2) !! 1%nat = Some y
       /\ (x + y) mod 256 = 0.
Proof.
  apply (shift_tables_cancel (rotn_template host_api) config_abc_2
           (ConfigItem (bytes "2")) (ConfigItem (bytes "ABC"))
           plentiful
           (snd (rotn_customize (rotn_template host_api) config_abc_2
                   (ConfigItem (bytes "2")) plentiful))
           0%nat abc_2 1%nat);
    [vm_compute; reflexivity | reflexivity | vm_compute; reflexivity].
Defined.

(** ** C2: round trip in shift mode *)

(** On the tables a secret has built, the backward shift undoes the
    forward shift on every byte. *)
Lemma built_from_inverse secret k e (j : Z) c :
  len secret <> 0 -> built_from secret k e -> 0 <= j -> 0 <= c < 256 ->
  dec_byte e j (enc_byte e j c) = c.
Proof.
  intros Hlen (Hsl & f & b & Hf & Hb & Hlf & Hlb & Hentries) Hj Hc.
  unfold dec_byte, enc_byte. rewrite Hsl, Hf, Hb.
  rewrite (proj2 (Z.eqb_neq _ 0)) by done. simpl. unfold shift_byte.
  assert (Hm : 0 <= j mod len secret < len secret)
    by (apply Z.mod_pos_bound; unfold len in *; lia).
  destruct (str secret !! Z.to_nat (j mod len secret)) as [s|] eqn:Hs;
    [|apply lookup_ge_None in Hs; unfold len in *; lia].
  destruct (Hentries _ s Hs) as (_ & -> & ->). simpl.
  apply shift_inverse; [done | apply forw_back_cancel].
Qed.

(** C2, on the code.  The configuration keyid 2, secretkey ABC is valid
    for the claim, and every allocation is granted, yet no instance is
    built from it when the local [keyid], which [atoi] reads before
    [config_get] has filled it, reads as a negative number: the call
    returns [EPERM].  When that pointer addresses nothing readable the
    call does not return at all.  So there is no instance to encrypt and
    decrypt with. *)
Theorem valid_configuration_refused :
  config_get host_api config_abc_2 "keyid" = (0, ConfigItem (bytes "2"))
  /\ config_get host_api config_abc_2 "secretkey"
     = (0, ConfigItem (bytes "ABC"))
  /\ atoi (bytes "2") = 2
  /\ (forall n, alloc_ok plentiful n = true)
  /\ (exists h',
        rotn_customize_call (rotn_template host_api) config_abc_2
                            (Addresses (ConfigItem (bytes "-1"))) plentiful
        = Returned (EPERM, None, h'))
  /\ rotn_customize_call (rotn_template host_api) config_abc_2 Wild plentiful
     = Crashed.
Proof.
  split; [reflexivity|]. split; [reflexivity|]. split; [reflexivity|].
  split; [reflexivity|]. split; [|reflexivity].
  eexists. vm_compute. reflexivity.
Qed.

(** ** C7: the scenario of the header comment *)

(** C7, on the code.  With keyid "2" and secretkey "ABC" in the
    configuration, and the number parsed on entry being 2 as well, the
    bytes behind the header of the encryption of "MySecret" are
    "O|Wgfvgw": the shift adds 3 to the byte of 'y' modulo 256 and
    leaves the alphabet.  They are not "ObWgfvgw". *)
Theorem vigenere_scenario :
  exists self e h' w',
    rotn_customize (rotn_template host_api) config_abc_2
                   (ConfigItem (bytes "2")) plentiful
    = (0, Some (self, e), h')
    /\ rotn_encrypt e (Some (bytes "MySecret")) 8 28
                    (world_of (replicate 28 0)) = Ok 0 w'
    /\ drop 20 (dst w') = bytes "O|Wgfvgw"
    /\ drop 20 (dst w') <> bytes "ObWgfvgw".
Proof.
  exists 0%nat, abc_2. eexists. eexists.
  split; [vm_compute; reflexivity|].
  split; [vm_compute; reflexivity|].
  split; [reflexivity | discriminate].
Qed.

(** The number used is the one parsed on entry, not the configured
    keyid: with the same configuration and a local [keyid] that reads as
    0 the tables are built for 0. *)
Example stale_keyid_scenario :
  exists self e h' w',
    rotn_customize (rotn_template host_api) config_abc_2
                   (ConfigItem (bytes "0")) plentiful
    = (0, Some (self, e), h')
    /\ rot_N e = 0
    /\ table (keyid e) = bytes "2" ++ [0]
    /\ rotn_encrypt e (Some (bytes "MySecret")) 8 28
                    (world_of (replicate 28 0)) = Ok 0 w'
    /\ drop 20 (dst w') = bytes "MzUedteu".
Proof.
  exists 0%nat. do 3 eexists.
  split; [vm_compute; reflexivity|].
  split; [reflexivity|]. split; [reflexivity|].
  split; [vm_compute; reflexivity | reflexivity].
Qed.

(** ** C6: what customization rejects *)

Lemma stash_secret_rejects cfg k re h secret (j : nat) c :
  config_get (wt_api re) cfg "secretkey" = (0, secret) ->
  str secret !! j = Some c -> isalpha c = false ->
  exists re' r h', stash_secret cfg k re h = GotoErr re' r h'.
Proof.
  intros Hcfg Hc Hbad. unfold stash_secret. rewrite Hcfg.
  apply lookup_lt_Some in Hc as Hj.
  rewrite Z.eqb_refl, (proj2 (Z.eqb_neq (len secret) 0))
    by (unfold len; lia).
  simpl andb. cbv iota.
  destruct (malloc _ h) as [[ps|] h1]; [|eauto].
  destruct (malloc _ h1) as [[pf|] h2]; [|eauto].
  destruct (malloc _ h2) as [[pb|] h3]; [|eauto].
  rewrite (shift_tables_reject _ 0 (str secret) k _ _ j);
    [eauto | unfold len; lia | now rewrite Hc | lia].
Qed.

Lemma customize_err_code self re ret h :
  exists h', customize_err self re ret h = (EPERM, None, h').
Proof. unfold customize_err. eauto. Qed.

(** When the pointer parsed on entry addresses a string, a secret with
    a byte that is not a letter makes the call return an error code and
    no instance. *)
Lemma customize_rejects_bad_secret (orig : ROTN_ENCRYPTOR)
    (cfg : WT_CONFIG_ARG) (keyid0 secret : WT_CONFIG_ITEM) (h : heap)
    (j : nat) (c : Z) :
  config_get (wt_api orig) cfg "secretkey" = (0, secret) ->
  str secret !! j = Some c -> isalpha c = false ->
  exists r h',
    rotn_customize orig cfg keyid0 h = (r, None, h') /\ r <> 0.
Proof.
  intros Hcfg Hc Hbad. unfold rotn_customize, calloc.
  destruct (malloc _ h) as [[self|] h0] eqn:Hm.
  2:{ apply malloc_none in Hm as [_ Herrno].
      exists (errno h0), h0. split; [reflexivity|]. now rewrite Herrno. }
  destruct (_ <? 0).
  { destruct (customize_err_code self (set_secretkey None (set_keyid None orig))
                EINVAL h0) as (h' & ->).
    exists EPERM, h'. done. }
  destruct (stash_keyid _ _ _) as [re1 h1|re1 r1 h1] eqn:Hk.
  2:{ destruct (customize_err_code self re1 r1 h1) as (h' & ->).
      exists EPERM, h'. done. }
  apply stash_keyid_next in Hk as (Hapi & _).
  destruct (stash_secret_rejects cfg (atoi (str keyid0)) re1 h1 secret j c)
    as (re2 & r2 & h2 & ->); [now rewrite Hapi | done | done |].
  destruct (customize_err_code self re2 r2 h2) as (h' & ->).
  exists EPERM, h'. done.
Qed.

(** What the call does reject is a negative number parsed on entry; the
    keyid of the configuration is stashed afterwards and not parsed. *)
Lemma negative_number_rejected orig cfg keyid0 h :
  atoi (str keyid0) < 0 -> alloc_ok h (alloc_count h) = true ->
  exists h', rotn_customize orig cfg keyid0 h = (EPERM, None, h').
Proof.
  intros Hneg Hgrant. unfold rotn_customize, calloc, malloc.
  rewrite Hgrant. rewrite (proj2 (Z.ltb_lt _ 0)) by done.
  apply customize_err_code.
Qed.

(** C6, on the code.  The configuration holds the negative keyid -5 and
    no secret.  [atoi] is applied to the local [keyid] before
    [config_get] has filled it, so the configured value is never parsed:
    when the local reads as 0 the call returns 0 with a rotation
    instance for 0 whose saved keyid is "-5", and when the pointer
    addresses nothing readable the call does not return. *)
Theorem negative_keyid_accepted :
  config_get host_api config_minus5 "keyid" = (0, ConfigItem (bytes "-5"))
  /\ atoi (bytes "-5") = -5
  /\ (exists self e h',
        rotn_customize_call (rotn_template host_api) config_minus5
                            (Addresses (ConfigItem (bytes "0"))) plentiful
        = Returned (0, Some (self, e), h')
        /\ rot_N e = 0 /\ table (keyid e) = bytes "-5" ++ [0])
  /\ rotn_customize_call (rotn_template host_api) config_minus5 Wild
                         plentiful
     = Crashed.
Proof.
  split; [reflexivity|]. split; [reflexivity|]. split; [|reflexivity].
  exists 0%nat. do 2 eexists.
  split; [vm_compute; reflexivity|]. split; reflexivity.
Qed.

(** ** C9: the error path *)

(** C9, as stated, fails when the instance itself cannot be allocated:
    the call returns [errno], which is [ENOMEM], not [EPERM]. *)
Lemma instance_alloc_failure_code :
  exists h',
    rotn_customize (rotn_template host_api) config_abc_2
                   (ConfigItem (bytes "2")) exhausted = (ENOMEM, None, h')
    /\ ENOMEM <> EPERM.
Proof. eexists. split; [vm_compute; reflexivity | discriminate]. Qed.

(** C9, amended.  Once the instance itself has been allocated, whenever
    [rotn_customize] fails (a negative parsed number, a secret byte that
    is not a letter, or a refused allocation of keyid, secretkey or a
    shift table) it stores no instance, returns [EPERM] whatever code was
    recorded at the failure, and leaves live exactly the blocks that
    were live before the call.  When the instance itself cannot be
    allocated the call returns [ENOMEM] from [errno], again with the
    live blocks unchanged. *)
Theorem failure_releases_all (orig : ROTN_ENCRYPTOR) (cfg : WT_CONFIG_ARG)
    (keyid0 : WT_CONFIG_ITEM) (h : heap) (r : Z)
    (inst : option (nat * ROTN_ENCRYPTOR)) (h' : heap) :
  shift_forw orig = None -> shift_back orig = None ->
  rotn_customize orig cfg keyid0 h = (r, inst, h') ->
  r <> 0 ->
  inst = None /\ live h' = live h
  /\ r = (if alloc_ok h (alloc_count h) then EPERM else ENOMEM).
Proof.
  intros Hf Hb Hrun Hr. unfold rotn_customize, calloc in Hrun.
  destruct (malloc _ h) as [[self|] h0] eqn:Hm.
  2:{ injection Hrun as <- <- <-.
      unfold malloc in Hm. destruct (alloc_ok h _); [discriminate|].
      injection Hm as <-. simpl. done. }
  assert (Hgrant : alloc_ok h (alloc_count h) = true).
  { unfold malloc in Hm. destruct (alloc_ok h _); done. }
  apply malloc_some in Hm as (Hfresh & Hl0 & _).
  set (re0 := set_secretkey None (set_keyid None orig)) in *.
  assert (H0 : holds (live h) self re0 h0).
  { unfold holds, owned. simpl. rewrite Hf, Hb. simpl.
    split; [rewrite Hl0; set_solver | split; [done | set_solver]]. }
  assert (Herr : forall re ret h1,
            holds (live h) self re h1 ->
            customize_err self re ret h1 = (r, inst, h') ->
            inst = None /\ live h' = live h
            /\ r = (if alloc_ok h (alloc_count h) then EPERM else ENOMEM)).
  { intros re ret h1 Hh Heq.
    destruct (customize_err_frees _ _ _ ret _ Hh) as (h2 & Hc & Hl).
    rewrite Hc in Heq. injection Heq as <- <- <-.
    rewrite Hgrant. done. }
  destruct (_ <? 0); [exact (Herr _ _ _ H0 Hrun)|].
  pose proof (stash_keyid_holds (live h) self cfg re0 h0 eq_refl H0) as Hk.
  destruct (stash_keyid cfg re0 h0) as [re1 h1|re1 r1 h1] eqn:Hsk;
    [|exact (Herr _ _ _ Hk Hrun)].
  apply stash_keyid_next in Hsk as (_ & Hs1 & Hf1 & Hb1 & _).
  pose proof (stash_secret_holds (live h) self cfg (atoi (str keyid0))
                re1 h1) as Hs.
  rewrite Hs1, Hf1, Hb1 in Hs. specialize (Hs eq_refl Hf Hb Hk).
  destruct (stash_secret _ _ _ _) as [re2 h2|re2 r2 h2];
    [|exact (Herr _ _ _ Hs Hrun)].
  injection Hrun as <- <- <-. done.
Qed.

Lemma failure_releases_all_witness :
  @None (nat * ROTN_ENCRYPTOR) = None
  /\ live (snd (rotn_customize (rotn_template host_api) config_a1c
                  (ConfigItem (bytes "2")) plentiful))
     = live plentiful
  /\ EPERM = (if alloc_ok plentiful (alloc_count plentiful)
              then EPERM else ENOMEM).
Proof.
  apply (failure_releases_all (rotn_template host_api) config_a1c
           (ConfigItem (bytes "2")) plentiful EPERM None
           (snd (rotn_customize (rotn_template host_api) config_a1c
                   (ConfigItem (bytes "2")) plentiful)));
    [reflexivity | reflexivity | vm_compute; reflexivity | discriminate].
Defined.

(** * Further properties of the code *)

(** ** The size checks *)

(** X1.  When the destination is smaller than the source plus the
    header, [rotn_encrypt] returns [ENOMEM] and has done nothing: no
    byte is written, no random number is drawn, the result length is
    not stored. *)
Theorem encrypt_out_of_space (e : ROTN_ENCRYPTOR) (s : list Z)
    (src_len dst_len : Z) (w : world) :
  0 <= src_len < 2 ^ 64 - 20 -> dst_len < src_len + 20 ->
  rotn_encrypt e (Some s) src_len dst_len w = Ok ENOMEM w.
Proof.
  intros Hsrc Hdst. unfold rotn_encrypt, CHKSUM_LEN, IV_LEN.
  replace (usize (usize (src_len + 4) + 16)) with (src_len + 20)
    by wrap_arith.
  now rewrite (proj2 (Z.ltb_lt dst_len _)) by lia.
Qed.

Lemma encrypt_out_of_space_witness :
  rotn_encrypt rot13 (Some (bytes "Hello")) 5 24 (world_of (replicate 24 0))
  = Ok ENOMEM (world_of (replicate 24 0)).
Proof.
  apply (encrypt_out_of_space rot13 (bytes "Hello") 5 24
           (world_of (replicate 24 0))); lia.
Defined.

(** X2.  For a source of [src_len >= 20] bytes, [rotn_decrypt] succeeds
    for one destination length only, [src_len - 20]: a shorter
    destination is refused with [ENOMEM] and the diagnostic, a longer
    one passes the size check and makes the copy read past the end of
    the source. *)
Theorem decrypt_exact_length_only (e : ROTN_ENCRYPTOR) (s : list Z)
    (src_len dst_len : Z) (w : world) :
  tables_ok e ->
  src_len = Z.of_nat (length s) -> 20 <= src_len < 2 ^ 64 ->
  dst_len = Z.of_nat (length (dst w)) -> dst_len < 2 ^ 32 ->
  (dst_len < src_len - 20 ->
     exists w', rotn_decrypt e (Some s) src_len dst_len w = Ok ENOMEM w'
                /\ dst w' = dst w)
  /\ (dst_len = src_len - 20 ->
        exists w', rotn_decrypt e (Some s) src_len dst_len w = Ok 0 w')
  /\ (src_len - 20 < dst_len ->
        rotn_decrypt e (Some s) src_len dst_len w = Fault OutOfBounds).
Proof.
  intros Hok Hs Hsrc Hd Hdlt.
  assert (Hsz : usize (usize (src_len - CHKSUM_LEN) - IV_LEN) = src_len - 20)
    by (unfold CHKSUM_LEN, IV_LEN; wrap_arith).
  split; [|split]; intros Hcmp.
  - unfold rotn_decrypt. rewrite Hsz.
    rewrite (proj2 (Z.ltb_lt dst_len _)) by lia.
    eexists. split; reflexivity.
  - destruct (rotn_decrypt_run e s src_len dst_len w) as (w' & Hrun & _);
      try (done || lia).
    exists w'. exact Hrun.
  - unfold rotn_decrypt. rewrite Hsz.
    rewrite (proj2 (Z.ltb_ge dst_len _)) by lia.
    unfold bind at 1. unfold memcpy, CHKSUM_LEN, IV_LEN.
    rewrite (proj2 (Z.leb_le 0 dst_len)) by lia.
    now rewrite (proj2 (Z.leb_gt (4 + 16 + dst_len) _)) by lia.
Qed.

Lemma decrypt_exact_length_only_witness :
  (4 < 25 - 20 ->
     exists w',
       rotn_decrypt rot13 (Some (replicate 20 0 ++ bytes "Uryyb")) 25 4
                    (world_of (replicate 4 0)) = Ok ENOMEM w'
       /\ dst w' = dst (world_of (replicate 4 0)))
  /\ (4 = 25 - 20 ->
        exists w',
          rotn_decrypt rot13 (Some (replicate 20 0 ++ bytes "Uryyb")) 25 4
                       (world_of (replicate 4 0)) = Ok 0 w')
  /\ (25 - 20 < 4 ->
        rotn_decrypt rot13 (Some (replicate 20 0 ++ bytes "Uryyb")) 25 4
                     (world_of (replicate 4 0)) = Fault OutOfBounds).
Proof.
  apply (decrypt_exact_length_only rot13
           (replicate 20 0 ++ bytes "Uryyb") 25 4 (world_of (replicate 4 0)));
    [now left | reflexivity | lia | reflexivity | lia].
Defined.

Example decrypt_oversized :
  rotn_decrypt rot13 (Some (replicate 20 0 ++ bytes "Uryyb")) 25 6
               (world_of (replicate 6 0)) = Fault OutOfBounds.
Proof. reflexivity. Qed.

(** X3.  [rotn_decrypt] does not look at the header: two sources that
    differ only in their first 20 bytes are decrypted alike, for every
    instance and every pair of lengths. *)
Theorem decrypt_ignores_header (e : ROTN_ENCRYPTOR) (hdr hdr' text : list Z)
    (src_len dst_len : Z) (w : world) :
  length hdr = 20%nat -> length hdr' = 20%nat ->
  rotn_decrypt e (Some (hdr ++ text)) src_len dst_len w
  = rotn_decrypt e (Some (hdr' ++ text)) src_len dst_len w.
Proof.
  intros Hh Hh'. unfold rotn_decrypt.
  destruct (dst_len <? _); [reflexivity|].
  assert (Hcopy : memcpy 0 (hdr ++ text) (CHKSUM_LEN + IV_LEN) dst_len
                  = memcpy 0 (hdr' ++ text) (CHKSUM_LEN + IV_LEN) dst_len).
  { unfold memcpy, CHKSUM_LEN, IV_LEN.
    change (Z.to_nat (4 + 16)) with 20%nat.
    rewrite !length_app, Hh, Hh'.
    rewrite !drop_app_length' by done. reflexivity. }
  now rewrite Hcopy.
Qed.

Lemma decrypt_ignores_header_witness :
  rotn_decrypt rot13 (Some (replicate 20 0 ++ bytes "Uryyb")) 25 5
               (world_of (replicate 5 0))
  = rotn_decrypt rot13 (Some (replicate 20 255 ++ bytes "Uryyb")) 25 5
                 (world_of (replicate 5 0)).
Proof.
  apply (decrypt_ignores_header rot13 (replicate 20 0) (replicate 20 255)
           (bytes "Uryyb") 25 5 (world_of (replicate 5 0)));
    reflexivity.
Defined.

(** X4.  On a text of 2^32 bytes or more neither call returns success:
    if the size check lets the call through, the [uint32_t] counter of
    [do_rotate] or [do_shift] wraps before it reaches the [size_t]
    bound, whatever number of iterations is granted. *)
Theorem large_text_never_done (e : ROTN_ENCRYPTOR) (s : list Z)
    (len other : Z) (w w' : world) :
  2 ^ 32 <= len ->
  rotn_encrypt e (Some s) len other w <> Ok 0 w'
  /\ rotn_decrypt e (Some s) other len w <> Ok 0 w'
  /\ (forall fuel body i a,
        0 <= i < 2 ^ 32 -> for_u32 fuel len body i w <> Ok a w').
Proof.
  intros Hlen. split; [|split].
  - unfold rotn_encrypt.
    destruct (other <? _); [discriminate|].
    unfold bind at 1. destruct (memcpy _ _ _ _ w) as [[] w1|]; [|discriminate].
    unfold bind at 1.
    destruct (shift_len e =? 0).
    + destruct (do_rotate _ _ _ w1) as [[] w2|] eqn:Hrot; [|discriminate].
      now apply do_rotate_large in Hrot.
    + destruct (do_shift _ _ _ _ w1) as [[] w2|] eqn:Hsh; [|discriminate].
      now apply do_shift_large in Hsh.
  - unfold rotn_decrypt.
    destruct (len <? _); [discriminate|].
    unfold bind at 1. destruct (memcpy _ _ _ _ w) as [[] w1|]; [|discriminate].
    unfold bind at 1.
    destruct (shift_len e =? 0).
    + destruct (do_rotate _ _ _ w1) as [[] w2|] eqn:Hrot; [|discriminate].
      now apply do_rotate_large in Hrot.
    + destruct (do_shift _ _ _ _ w1) as [[] w2|] eqn:Hsh; [|discriminate].
      now apply do_shift_large in Hsh.
  - intros fuel body i a Hi. now apply for_u32_wraps.
Qed.

Lemma large_text_never_done_witness :
  rotn_encrypt rot13 (Some (replicate (Z.to_nat (2 ^ 32)) 65))
               (2 ^ 32) (2 ^ 32 + 20) (world_of []) <> Ok 0 (world_of [])
  /\ rotn_decrypt rot13 (Some (replicate (Z.to_nat (2 ^ 32)) 65))
                  (2 ^ 32 + 20) (2 ^ 32) (world_of []) <> Ok 0 (world_of [])
  /\ (forall fuel body i a,
        0 <= i < 2 ^ 32 ->
        for_u32 fuel (2 ^ 32) body i (world_of []) <> Ok a (world_of [])).
Proof.
  apply (large_text_never_done rot13 (replicate (Z.to_nat (2 ^ 32)) 65)
           (2 ^ 32) (2 ^ 32 + 20) (world_of []) (world_of [])).
  lia.
Defined.

(** ** What encrypt writes *)

Lemma for_int_fill_values d n : forall i w,
  0 <= d + i -> d + i + Z.of_nat n <= Z.of_nat (length (dst w)) ->
  exists w',
    for_int n i (fun i => let* r := random in store (d + i) (u8 r)) w = Ok tt w'
    /\ filled (d + i) (d + i + Z.of_nat n) w w'
    /\ rand_seq w' = rand_seq w
    /\ rand_pos w' = (rand_pos w + n)%nat
    /\ forall j : nat, (j < n)%nat ->
         dst w' !! Z.to_nat (d + i + Z.of_nat j)
         = Some (u8 (rand_seq w (rand_pos w + j)%nat)).
Proof.
  induction n as [|n IH]; intros i w Hlo Hhi; simpl.
  - exists w. repeat split; auto; lia.
  - unfold bind at 1. unfold bind at 1. unfold random, store. simpl.
    rewrite (proj2 (Z.leb_le 0 (d + i))) by lia.
    rewrite (proj2 (Z.ltb_lt (d + i) _)) by lia. simpl.
    match goal with |- context [for_int n (i + 1) _ ?w1] =>
      destruct (IH (i + 1) w1)
        as (w' & Hrun & (Hlen & Hout & Hres & Herr) & Hseq & Hpos & Hval)
    end; simpl; rewrite ?length_insert; try lia.
    exists w'. split; [exact Hrun|]. simpl in *.
    rewrite length_insert in Hlen.
    split; [|split; [exact Hseq|split; [lia|]]].
    + repeat split; auto.
      intros k Hk. rewrite Hout by lia.
      apply list_lookup_insert_ne. lia.
    + intros j Hj. destruct j as [|j].
      * rewrite Hout by lia.
        replace (d + i + Z.of_nat 0) with (d + i) by lia.
        rewrite list_lookup_insert_eq by lia.
        now rewrite Nat.add_0_r.
      * specialize (Hval j ltac:(lia)).
        replace (d + i + Z.of_nat (S j)) with (d + (i + 1) + Z.of_nat j) by lia.
        rewrite Hval. do 3 f_equal. lia.
Qed.

(** The state in which [rotn_encrypt] starts on the header: the text is
    copied behind it and transformed. *)
Lemma rotn_encrypt_split e s src_len dst_len w :
  tables_ok e ->
  src_len = Z.of_nat (length s) -> src_len < 2 ^ 32 ->
  src_len + 20 <= dst_len -> dst_len <= Z.of_nat (length (dst w)) ->
  exists d,
    length d = length (dst w)
    /\ rotn_encrypt e (Some s) src_len dst_len w
       = (make_cksum 0 >> make_iv (0 + CHKSUM_LEN) >>
          set_result_len dst_len >> ret 0) (set_dst d w).
Proof.
  intros Hok Hsl Hlt Hroom Hbuf. unfold rotn_encrypt, CHKSUM_LEN, IV_LEN.
  assert (Hsz : usize (usize (src_len + 4) + 16) = src_len + 20)
    by wrap_arith.
  rewrite Hsz. rewrite (proj2 (Z.ltb_ge dst_len (src_len + 20))) by lia.
  unfold bind at 1. unfold memcpy.
  rewrite (proj2 (Z.leb_le 0 src_len)) by lia.
  rewrite (proj2 (Z.leb_le (0 + src_len) _)) by lia.
  rewrite (proj2 (Z.leb_le (4 + 16 + src_len) _)) by lia. simpl andb. cbv iota.
  match goal with |- context [set_dst ?d1 w] => set (d1' := d1) end.
  assert (Hl1 : length d1' = length (dst w)).
  { unfold d1'. rewrite !length_app, !length_take, !length_drop. lia. }
  unfold bind at 1.
  rewrite (encrypt_transform_run e (4 + 16) src_len (set_dst d1' w))
    by (rewrite ?dst_set_dst; (done || lia)).
  rewrite dst_set_dst, set_dst_set_dst.
  eexists. split; [|reflexivity].
  now rewrite length_apply_range.
Qed.

(** X5.  The header a successful [rotn_encrypt] writes is the next 20
    numbers of [random ()], one byte each and in order (4 for the
    checksum, then 16 for the initialization vector); nothing else is
    drawn from the generator. *)
Theorem encrypt_header_is_random (e : ROTN_ENCRYPTOR) (s : list Z)
    (dst_len : Z) (w : world) :
  tables_ok e ->
  Z.of_nat (length s) < 2 ^ 32 ->
  Z.of_nat (length s) + 20 <= dst_len ->
  dst_len <= Z.of_nat (length (dst w)) ->
  exists w',
    rotn_encrypt e (Some s) (Z.of_nat (length s)) dst_len w = Ok 0 w'
    /\ rand_pos w' = (rand_pos w + 20)%nat
    /\ forall k : nat, (k < 20)%nat ->
         dst w' !! k = Some (rand_seq w (rand_pos w + k)%nat mod 256).
Proof.
  intros Hok Hlt Hroom Hbuf.
  destruct (rotn_encrypt_split e s (Z.of_nat (length s)) dst_len w)
    as (d & Hld & ->); try (done || lia).
  unfold make_cksum, make_iv, CHKSUM_LEN, IV_LEN.
  destruct (for_int_fill_values 0 (Z.to_nat 4) 0 (set_dst d w))
    as (w3 & Hck & (Hl3 & _) & Hseq3 & Hpos3 & Hval3);
    [lia | rewrite dst_set_dst; simpl; lia |].
  rewrite dst_set_dst in Hl3.
  destruct (for_int_fill_values (0 + 4) (Z.to_nat 16) 0 w3)
    as (w4 & Hiv & (Hl4 & Hout4 & _) & Hseq4 & Hpos4 & Hval4);
    [lia | simpl; lia |].
  unfold bind at 1. unfold bind at 1. rewrite Hck.
  unfold ret at 1. cbv beta iota.
  unfold bind at 1. unfold bind at 1. rewrite Hiv.
  unfold bind, set_result_len, ret.
  eexists. split; [reflexivity|]. cbn [rand_pos dst].
  split; [simpl in Hpos3, Hpos4; lia|].
  intros k Hk. destruct (decide (k < 4)%nat) as [Hk4|Hk4].
  - rewrite Hout4 by lia.
    specialize (Hval3 k ltac:(simpl; lia)).
    replace (Z.to_nat (0 + 0 + Z.of_nat k)) with k in Hval3 by lia.
    exact Hval3.
  - specialize (Hval4 (k - 4)%nat ltac:(simpl; lia)).
    replace (Z.to_nat (0 + 4 + 0 + Z.of_nat (k - 4))) with k in Hval4 by lia.
    rewrite Hval4, Hseq3. simpl in Hpos3. rewrite Hpos3.
    unfold u8. do 3 f_equal. simpl. lia.
Qed.

Lemma encrypt_header_is_random_witness :
  exists w',
    rotn_encrypt rot13 (Some (bytes "Hello"))
                 (Z.of_nat (length (bytes "Hello"))) 25
                 (world_of (replicate 25 0)) = Ok 0 w'
    /\ rand_pos w' = (rand_pos (world_of (replicate 25 0%Z)) + 20)%nat
    /\ forall k : nat, (k < 20)%nat ->
         dst w' !! k
         = Some (rand_seq (world_of (replicate 25 0))
                          (rand_pos (world_of (replicate 25 0%Z)) + k)%nat
                 mod 256).
Proof.
  apply (encrypt_header_is_random rot13 (bytes "Hello") 25
           (world_of (replicate 25 0)));
    [now left | simpl; lia | simpl; lia | simpl; lia].
Defined.

(** X6.  In shift mode the byte at index [j] of the ciphertext is the
    byte of the text plus the table entry at [j mod shift_len], modulo
    256, for every byte, letter or not. *)
Theorem shift_ciphertext (e : ROTN_ENCRYPTOR) (t : buffer) (b : list Z)
    (dst_len : Z) (w : world) :
  tables_ok e -> shift_len e <> 0 -> shift_forw e = Some t ->
  Z.of_nat (length b) < 2 ^ 32 ->
  Z.of_nat (length b) + 20 <= dst_len ->
  dst_len <= Z.of_nat (length (dst w)) ->
  exists w',
    rotn_encrypt e (Some b) (Z.of_nat (length b)) dst_len w = Ok 0 w'
    /\ forall (j : nat) c, b !! j = Some c ->
         exists k,
           data t !! Z.to_nat (Z.of_nat j mod shift_len e) = Some k
           /\ dst w' !! (20 + j)%nat = Some ((c + k) mod 256).
Proof.
  intros Hok Hmode Ht Hlt Hroom Hbuf.
  destruct (rotn_encrypt_run e b (Z.of_nat (length b)) dst_len w)
    as (w' & Hrun & _ & _ & _ & Htext & _); try (done || lia).
  exists w'. split; [exact Hrun|].
  intros j c Hc. apply lookup_lt_Some in Hc as Hj.
  rewrite (Htext j Hj), Hc. simpl.
  destruct Hok as [H0 | (Hpos & f & bk & Hf & _ & Hlf & _)]; [done|].
  rewrite Ht in Hf. injection Hf as <-.
  pose proof (Z.mod_pos_bound (Z.of_nat j) (shift_len e) Hpos) as Hm.
  destruct (data t !! Z.to_nat (Z.of_nat j mod shift_len e)) as [k|] eqn:Hk;
    [|apply lookup_ge_None in Hk; lia].
  exists k. split; [reflexivity|].
  unfold enc_byte. rewrite (proj2 (Z.eqb_neq _ 0)) by done.
  unfold shift_byte. rewrite Ht. simpl. now rewrite Hk.
Qed.

Lemma shift_ciphertext_witness :
  exists w',
    rotn_encrypt abc_2 (Some (bytes "a b!"))
                 (Z.of_nat (length (bytes "a b!"))) 24
                 (world_of (replicate 24 0)) = Ok 0 w'
    /\ forall (j : nat) c, bytes "a b!" !! j = Some c ->
         exists k,
           data (Buffer 3 [2; 3; 4])
             !! Z.to_nat (Z.of_nat j mod shift_len abc_2) = Some k
           /\ dst w' !! (20 + j)%nat = Some ((c + k) mod 256).
Proof.
  apply (shift_ciphertext abc_2 (Buffer 3 [2; 3; 4]) (bytes "a b!") 24
           (world_of (replicate 24 0)));
    [ right; split; [reflexivity|]; eexists _, _;
      repeat split; reflexivity
    | discriminate | reflexivity | simpl; lia | simpl; lia | simpl; lia ].
Defined.

(** ** The rotation amount *)

Lemma for_u32_ext body body' len :
  (forall i w, body i w = body' i w) ->
  forall fuel i w, for_u32 fuel len body i w = for_u32 fuel len body' i w.
Proof.
  intros Heq. induction fuel as [|fuel IH]; intros i w; simpl; [done|].
  destruct (i <? len); [|done].
  unfold bind. rewrite Heq. destruct (body' i w); [apply IH | done].
Qed.

Lemma bind_ext_r {A B} (m : M A) (k k' : A -> M B) w :
  (forall a w1, k a w1 = k' a w1) -> bind m k w = bind m k' w.
Proof. intros Heq. unfold bind. destruct (m w); [apply Heq | done]. Qed.

Lemma bind_ext_l {A B} (m m' : M A) (k : A -> M B) w :
  m w = m' w -> bind m k w = bind m' k w.
Proof. intros Heq. unfold bind. now rewrite Heq. Qed.

Lemma rotate_letter_mod_26 base n c :
  0 <= base <= 200 -> base <= c <= base + 25 -> 0 <= n < 2 ^ 31 ->
  rotate_letter base n c = rotate_letter base (n mod 26) c.
Proof. intros. unfold rotate_letter. wrap_arith. Qed.

(** X7.  Rotation only depends on the amount modulo 26: for every
    amount an [int] key can give, [rotn_encrypt] under [rot_N = n] and
    under [rot_N = n mod 26] are the same function of source, lengths
    and world. *)
Theorem rotation_amount_mod_26 (e e' : ROTN_ENCRYPTOR)
    (src : option (list Z)) (src_len dst_len : Z) (w : world) :
  shift_len e = 0 -> shift_len e' = 0 ->
  0 <= rot_N e < 2 ^ 31 -> rot_N e' = rot_N e mod 26 ->
  rotn_encrypt e src src_len dst_len w
  = rotn_encrypt e' src src_len dst_len w.
Proof.
  intros Hm Hm' Hn Hn'. unfold rotn_encrypt. rewrite Hm, Hm', Hn'. simpl.
  destruct src as [s|]; [|reflexivity].
  destruct (dst_len <? _); [reflexivity|].
  apply bind_ext_r. intros [] w1.
  assert (Hrot : do_rotate (CHKSUM_LEN + IV_LEN) src_len (rot_N e) w1
                 = do_rotate (CHKSUM_LEN + IV_LEN) src_len (rot_N e mod 26) w1).
  { unfold do_rotate. apply for_u32_ext. intros i w2.
    unfold bind. destruct (load _ w2) as [c w3|]; [|reflexivity].
    destruct (isalpha c) eqn:Ha; [|reflexivity].
    destruct (islower c) eqn:Hl.
    - apply islower_spec in Hl.
      now rewrite (rotate_letter_mod_26 97 (rot_N e) c) by lia.
    - apply (upper_not_lower c Ha) in Hl. apply isupper_spec in Hl.
      now rewrite (rotate_letter_mod_26 65 (rot_N e) c) by lia. }
  now apply bind_ext_l.
Qed.

Lemma rotation_amount_mod_26_witness :
  rotn_encrypt (RotnEncryptor host_api 39 None None None None 0)
               (Some (bytes "Hello")) 5 25 (world_of (replicate 25 0))
  = rotn_encrypt rot13 (Some (bytes "Hello")) 5 25
                 (world_of (replicate 25 0)).
Proof.
  apply (rotation_amount_mod_26
           (RotnEncryptor host_api 39 None None None None 0) rot13
           (Some (bytes "Hello")) 5 25 (world_of (replicate 25 0)));
    [reflexivity | reflexivity | simpl; lia | reflexivity].
Defined.

(** X8.  A rotation amount above 26 is not undone by [rotn_decrypt]:
    [26 - rot_N] wraps around 2^32, which is not a multiple of 26, and
    the lower-case letter that encrypt sends to 'a' comes back four
    places early.  The key is not range-checked, so such an instance can
    be built. *)
Theorem rotation_above_26_lossy (e : ROTN_ENCRYPTOR) (n : Z)
    (w1 w2 : world) :
  shift_len e = 0 -> rot_N e = n -> 26 < n < 2 ^ 31 ->
  length (dst w1) = 21%nat -> length (dst w2) = 1%nat ->
  exists w1' w2',
    rotn_encrypt e (Some [97 + (- n) mod 26]) 1 21 w1 = Ok 0 w1'
    /\ dst w1' !! 20%nat = Some 97
    /\ rotn_decrypt e (Some (dst w1')) 21 1 w2 = Ok 0 w2'
    /\ dst w2' = [97 + ((- n) mod 26 + 22) mod 26]
    /\ dst w2' <> [97 + (- n) mod 26].
Proof.
  intros Hmode Hrot Hn Hd1 Hd2.
  set (c := 97 + (- n) mod 26).
  assert (Hc : 97 <= c <= 122) by (unfold c; wrap_arith).
  assert (Henc : enc_byte e 0 c = 97).
  { unfold enc_byte, rotate_byte. rewrite Hmode, Hrot. simpl.
    rewrite (proj2 (isalpha_spec c)) by lia.
    rewrite (proj2 (islower_spec c)) by lia.
    unfold rotate_letter, c. wrap_arith. }
  assert (Hdec : dec_byte e 0 97 = 97 + ((- n) mod 26 + 22) mod 26).
  { unfold dec_byte, rotate_byte. rewrite Hmode, Hrot. simpl.
    unfold rotate_letter. wrap_arith. }
  destruct (rotn_encrypt_run e [c] 1 21 w1)
    as (w1' & Hrun1 & _ & _ & Hl1 & Htext & _);
    [now left | reflexivity | lia | lia | lia |].
  destruct (rotn_decrypt_run e (dst w1') 21 1 w2)
    as (w2' & Hrun2 & _ & _ & Hl2 & Hback); [now left | lia | lia | lia | lia |].
  specialize (Htext 0%nat ltac:(simpl; lia)).
  change (dst w1' !! 20%nat = Some (enc_byte e 0 c)) in Htext.
  rewrite Henc in Htext.
  specialize (Hback 0%nat ltac:(lia)).
  change (dst w2' !! 0%nat = dec_byte e 0 <$> dst w1' !! 20%nat) in Hback.
  rewrite Htext in Hback. cbn [fmap option_fmap option_map] in Hback.
  rewrite Hdec in Hback.
  assert (Hres : dst w2' = [97 + ((- n) mod 26 + 22) mod 26]).
  { destruct (dst w2') as [|x [|y l]]; simpl in *; try lia.
    now injection Hback as ->. }
  exists w1', w2'. repeat (split; [assumption|]).
  rewrite Hres. intros Heq. injection Heq as Heq. unfold c in *.
  revert Heq. wrap_arith.
Qed.

Lemma rotation_above_26_lossy_witness :
  exists w1' w2',
    rotn_encrypt (RotnEncryptor host_api 27 None None None None 0)
                 (Some [97 + (- 27) mod 26]) 1 21
                 (world_of (replicate 21 0)) = Ok 0 w1'
    /\ dst w1' !! 20%nat = Some 97
    /\ rotn_decrypt (RotnEncryptor host_api 27 None None None None 0)
                    (Some (dst w1')) 21 1 (world_of [0]) = Ok 0 w2'
    /\ dst w2' = [97 + ((- 27) mod 26 + 22) mod 26]
    /\ dst w2' <> [97 + (- 27) mod 26].
Proof.
  apply (rotation_above_26_lossy
           (RotnEncryptor host_api 27 None None None None 0) 27
           (world_of (replicate 21 0)) (world_of [0]));
    [reflexivity | reflexivity | lia | reflexivity | reflexivity].
Defined.

(** Such an instance is what [rotn_customize] returns for the number 27;
    under it "z" is encrypted to "a" and decrypted to "v". *)
Example keyid_27 :
  exists self e h' w1 w2,
    rotn_customize (rotn_template host_api) ∅ (ConfigItem (bytes "27"))
                   plentiful = (0, Some (self, e), h')
    /\ rot_N e = 27 /\ shift_len e = 0
    /\ rotn_encrypt e (Some (bytes "z")) 1 21 (world_of (replicate 21 0))
       = Ok 0 w1
    /\ drop 20 (dst w1) = bytes "a"
    /\ rotn_decrypt e (Some (dst w1)) 21 1 (world_of [0]) = Ok 0 w2
    /\ dst w2 = bytes "v".
Proof.
  exists 0%nat. do 4 eexists.
  split; [vm_compute; reflexivity|]. split; [reflexivity|].
  split; [reflexivity|]. split; [vm_compute; reflexivity|].
  split; [reflexivity|]. split; [vm_compute; reflexivity | reflexivity].
Qed.

(** ** What customization builds *)

(** X9.  In a successfully customized instance the forward entry for
    the secret letter [c] is its distance from 'a' or 'A' (by its case)
    plus the parsed number, modulo 256, and the backward entry is the
    opposite; a secret is used without regard to case. *)
Theorem shift_entry_value (orig : ROTN_ENCRYPTOR) (cfg : WT_CONFIG_ARG)
    (keyid0 secret : WT_CONFIG_ITEM) (h h' : heap) (self : nat)
    (e : ROTN_ENCRYPTOR) (i : nat) (c : Z) :
  rotn_customize orig cfg keyid0 h = (0, Some (self, e), h') ->
  config_get (wt_api orig) cfg "secretkey" = (0, secret) ->
  str secret !! i = Some c ->
  let k := atoi (str keyid0) in
  let base := if islower c then 97 else 65 in
  0 <= c - base <= 25
  /\ table (shift_forw e) !! i = Some ((c - base + k) mod 256)
  /\ table (shift_back e) !! i = Some ((- (c - base + k)) mod 256).
Proof.
  intros Hrun Hcfg Hc k base.
  apply lookup_lt_Some in Hc as Hi.
  destruct (customize_built orig cfg keyid0 h self e h' secret Hrun Hcfg)
    as (_ & (_ & f & b & Hf & Hb & _ & _ & Hentries) & _);
    [unfold len; lia|].
  destruct (Hentries i c Hc) as (Ha & Hx & Hy).
  rewrite Hf, Hb. simpl. rewrite Hx, Hy.
  unfold forw_byte, back_byte, key_base. fold base. fold k.
  split; [|split; f_equal; wrap_arith].
  unfold base. destruct (islower c) eqn:Hl.
  - apply islower_spec in Hl. lia.
  - apply (upper_not_lower c Ha) in Hl. apply isupper_spec in Hl. lia.
Qed.

Lemma shift_entry_value_witness :
  let k := atoi (str (ConfigItem (bytes "2"))) in
  let base := if islower 66 then 97 else 65 in
  0 <= 66 - base <= 25
  /\ table (shift_forw abc_2) !! 1%nat = Some ((66 - base + k) mod 256)
  /\ table (shift_back abc_2) !! 1%nat = Some ((- (66 - base + k)) mod 256).
Proof.
  apply (shift_entry_value (rotn_template host_api) config_abc_2
           (ConfigItem (bytes "2")) (ConfigItem (bytes "ABC"))
           plentiful
           (snd (rotn_customize (rotn_template host_api) config_abc_2
                   (ConfigItem (bytes "2")) plentiful))
           0%nat abc_2 1%nat 66);
    [vm_compute; reflexivity | reflexivity | reflexivity].
Defined.

(** X10.  A failing configuration lookup is never reported.  When
    [config_get] fails for both keys and the call returns, its code is
    [ENOMEM] if the instance could not be allocated, [EPERM] if the
    number parsed on entry is negative, and 0 otherwise; in that last
    case the instance has no keyid and no secretkey, the parsed number
    as rotation amount, the shift tables and [shift_len] of the
    structure it was called on, and it is the only block allocated. *)
Theorem lookup_errors_ignored (orig : ROTN_ENCRYPTOR) (cfg : WT_CONFIG_ARG)
    (entry : entry_keyid) (k1 k2 : WT_CONFIG_ITEM) (r1 r2 : Z) (h h' : heap)
    (r : Z) (inst : option (nat * ROTN_ENCRYPTOR)) :
  config_get (wt_api orig) cfg "keyid" = (r1, k1) -> r1 <> 0 ->
  config_get (wt_api orig) cfg "secretkey" = (r2, k2) -> r2 <> 0 ->
  rotn_customize_call orig cfg entry h = Returned (r, inst, h') ->
  if alloc_ok h (alloc_count h) then
    exists keyid0,
      entry = Addresses keyid0
      /\ if atoi (str keyid0) <? 0 then r = EPERM /\ inst = None
         else
           r = 0
           /\ exists self e,
                inst = Some (self, e)
                /\ keyid e = None /\ secretkey e = None
                /\ rot_N e = u32 (atoi (str keyid0))
                /\ shift_forw e = shift_forw orig
                /\ shift_back e = shift_back orig
                /\ shift_len e = shift_len orig
                /\ live h' = {[self]} ∪ live h /\ self ∉ live h
  else r = ENOMEM /\ inst = None.
Proof.
  intros Hk Hr1 Hs Hr2.
  destruct entry as [keyid0|]; simpl;
    unfold rotn_customize, calloc, malloc;
    destruct (alloc_ok h (alloc_count h)) eqn:Hgrant;
    try (intros H; injection H as <- <- <-; done); try discriminate.
  intros Hrun. exists keyid0. split; [reflexivity|].
  destruct (atoi (str keyid0) <? 0).
  { destruct (customize_err_code (fresh (live h))
                (set_secretkey None (set_keyid None orig)) EINVAL
                (Heap ({[fresh (live h)]} ∪ live h) (alloc_ok h)
                      (S (alloc_count h)) (errno h))) as (h1 & Herr).
    rewrite Herr in Hrun. injection Hrun as <- <- <-. done. }
  unfold stash_keyid in Hrun. cbn [wt_api set_secretkey set_keyid] in Hrun.
  rewrite Hk in Hrun.
  rewrite (proj2 (Z.eqb_neq r1 0)) in Hrun by done.
  simpl andb in Hrun. cbv iota in Hrun.
  unfold stash_secret in Hrun. cbn [wt_api set_secretkey set_keyid] in Hrun.
  rewrite Hs in Hrun.
  rewrite (proj2 (Z.eqb_neq r2 0)) in Hrun by done.
  simpl andb in Hrun. cbv iota in Hrun.
  injection Hrun as <- <- <-. split; [reflexivity|].
  eexists _, _. split; [reflexivity|]. simpl.
  repeat split. apply is_fresh.
Qed.

Lemma lookup_errors_ignored_witness :
  if alloc_ok plentiful (alloc_count plentiful) then
    exists keyid0,
      Addresses (ConfigItem (bytes "7")) = Addresses keyid0
      /\ if atoi (str keyid0) <? 0
         then 0 = EPERM /\ Some (0%nat, rot_7) = None
         else
           0 = 0
           /\ exists self e,
                Some (0%nat, rot_7) = Some (self, e)
                /\ keyid e = None /\ secretkey e = None
                /\ rot_N e = u32 (atoi (str keyid0))
                /\ shift_forw e = shift_forw (rotn_template host_api)
                /\ shift_back e = shift_back (rotn_template host_api)
                /\ shift_len e = shift_len (rotn_template host_api)
                /\ live (Heap {[0%nat]} (fun _ => true) 1 0)
                   = {[self]} ∪ live plentiful
                /\ self ∉ live plentiful
  else 0 = ENOMEM /\ Some (0%nat, rot_7) = None.
Proof.
  apply (lookup_errors_ignored (rotn_template host_api) ∅
           (Addresses (ConfigItem (bytes "7"))) (ConfigItem []) (ConfigItem [])
           WT_NOTFOUND WT_NOTFOUND plentiful
           (Heap {[0%nat]} (fun _ => true) 1 0) 0 (Some (0%nat, rot_7)));
    [ reflexivity | discriminate | reflexivity | discriminate
    | vm_compute; reflexivity ].
Defined.

Lemma until_nul_id (s : list Z) :
  Forall (fun c => c <> 0) s -> until_nul s = s.
Proof.
  induction 1 as [|c s Hc _ IH]; simpl; [done|].
  rewrite (proj2 (Z.eqb_neq c 0)) by done. now rewrite IH.
Qed.

Lemma strncpy_term_id (s : list Z) :
  Forall (fun c => c <> 0) s -> strncpy_term s = s ++ [0].
Proof.
  intros Hs. unfold strncpy_term. rewrite until_nul_id by done.
  now rewrite Nat.sub_diag.
Qed.

Lemma stash_secret_keeps_keyid cfg k re h re' h' :
  stash_secret cfg k re h = Next re' h' -> keyid re' = keyid re.
Proof.
  unfold stash_secret. destruct (config_get _ _ _) as [r it].
  destruct (_ && _); [|intros H; now injection H as <- <-].
  destruct (malloc _ h) as [[ps|] h1]; [|discriminate].
  destruct (malloc _ h1) as [[pf|] h2]; [|discriminate].
  destruct (malloc _ h2) as [[pb|] h3]; [|discriminate].
  destruct (shift_tables _ _ _ _ _ _) as [[forw back]|]; [|discriminate].
  intros H. now injection H as <- <-.
Qed.

(** X11.  A successfully customized instance holds NUL-terminated copies
    of the configured keyid and secretkey: the bytes of the value
    followed by one 0. *)
Theorem config_strings_stashed (orig : ROTN_ENCRYPTOR)
    (cfg : WT_CONFIG_ARG) (keyid0 kid secret : WT_CONFIG_ITEM)
    (h h' : heap) (self : nat) (e : ROTN_ENCRYPTOR) :
  rotn_customize orig cfg keyid0 h = (0, Some (self, e), h') ->
  config_get (wt_api orig) cfg "keyid" = (0, kid) ->
  len kid <> 0 -> Forall (fun c => c <> 0) (str kid) ->
  config_get (wt_api orig) cfg "secretkey" = (0, secret) ->
  len secret <> 0 ->
  table (keyid e) = str kid ++ [0]
  /\ table (secretkey e) = str secret ++ [0].
Proof.
  intros Hrun Hk Hklen Hknul Hs Hslen.
  apply customize_ok_inv in Hrun as (h0 & re1 & h1 & re2 & _ & Hsk & Hss & ->).
  apply stash_secret_keeps_keyid in Hss as Hkeep.
  apply stash_keyid_next in Hsk as Hfields. destruct Hfields as (Hapi & _).
  simpl in Hapi.
  split.
  - cbn [keyid set_rot_N]. rewrite Hkeep.
    unfold stash_keyid in Hsk. cbn [wt_api set_secretkey set_keyid] in Hsk.
    rewrite Hk in Hsk.
    rewrite Z.eqb_refl, (proj2 (Z.eqb_neq _ 0)) in Hsk by done.
    simpl andb in Hsk. cbv iota in Hsk.
    destruct (malloc _ h0) as [[p|] h2]; [|discriminate].
    injection Hsk as <- <-. simpl. now apply strncpy_term_id.
  - cbn [secretkey set_rot_N].
    unfold stash_secret in Hss. rewrite Hapi, Hs in Hss.
    rewrite Z.eqb_refl, (proj2 (Z.eqb_neq _ 0)) in Hss by done.
    simpl andb in Hss. cbv iota in Hss.
    destruct (malloc _ h1) as [[ps|] h2]; [|discriminate].
    destruct (malloc _ h2) as [[pf|] h3]; [|discriminate].
    destruct (malloc _ h3) as [[pb|] h4]; [|discriminate].
    destruct (shift_tables _ _ _ _ _ _) as [[forw back]|] eqn:Htab;
      [|discriminate].
    injection Hss as <- <-. simpl.
    apply strncpy_term_id. apply Forall_lookup. intros j c Hc Hzero.
    apply shift_tables_some in Htab;
      [|lia | rewrite length_replicate; unfold len; lia
       | now rewrite !length_replicate].
    destruct Htab as (_ & _ & _ & Hrange).
    apply lookup_lt_Some in Hc as Hj.
    destruct (Hrange j) as (Ha & _); [unfold len; lia|].
    rewrite Hc in Ha. simpl in Ha. now subst c.
Qed.

Lemma config_strings_stashed_witness :
  table (keyid abc_2) = str (ConfigItem (bytes "2")) ++ [0]
  /\ table (secretkey abc_2) = str (ConfigItem (bytes "ABC")) ++ [0].
Proof.
  apply (config_strings_stashed (rotn_template host_api) config_abc_2
           (ConfigItem (bytes "2")) (ConfigItem (bytes "2"))
           (ConfigItem (bytes "ABC")) plentiful
           (snd (rotn_customize (rotn_template host_api) config_abc_2
                   (ConfigItem (bytes "2")) plentiful))
           0%nat abc_2);
    [ vm_compute; reflexivity | reflexivity | discriminate
    | repeat constructor; discriminate | reflexivity | discriminate ].
Defined.

(** ** Termination *)

Lemma stash_keyid_separate L0 self cfg re h re' h' :
  keyid re = None -> holds L0 self re h -> separate self re ->
  stash_keyid cfg re h = Next re' h' -> separate self re'.
Proof.
  intros Hk (Hlive & _ & _) (Hself & Hks & Hf & Hb). unfold stash_keyid.
  destruct (config_get _ _ _) as [r it].
  destruct (_ && _); [|intros H; now injection H as <- <-].
  destruct (malloc _ h) as [[p|] h1] eqn:Hm; [|discriminate].
  apply malloc_some in Hm as (Hfresh & _ & _).
  intros H. injection H as <- <-.
  unfold separate, owned in *. simpl. rewrite Hk in *. simpl in *.
  rewrite Hlive in Hfresh. clear Hlive.
  generalize dependent (ptr_set (secretkey re)).
  generalize dependent (ptr_set (shift_forw re)).
  generalize dependent (ptr_set (shift_back re)).
  intros B F S. set_solver.
Qed.

Lemma stash_secret_separate L0 self cfg k re h re' h' :
  secretkey re = None -> shift_forw re = None -> shift_back re = None ->
  holds L0 self re h -> separate self re ->
  stash_secret cfg k re h = Next re' h' -> separate self re'.
Proof.
  intros Hs Hf Hb (Hlive & _ & _) (Hself & _). unfold stash_secret.
  destruct (config_get _ _ _) as [r it].
  destruct (_ && _).
  2:{ intros H. injection H as <- <-.
      unfold separate, owned in *. rewrite Hs, Hf, Hb in *. simpl.
      set_solver. }
  destruct (malloc _ h) as [[ps|] h1] eqn:Hm1; [|discriminate].
  apply malloc_some in Hm1 as (Hfresh1 & Hl1 & _).
  destruct (malloc _ h1) as [[pf|] h2] eqn:Hm2; [|discriminate].
  apply malloc_some in Hm2 as (Hfresh2 & Hl2 & _).
  destruct (malloc _ h2) as [[pb|] h3] eqn:Hm3; [|discriminate].
  apply malloc_some in Hm3 as (Hfresh3 & Hl3 & _).
  destruct (shift_tables _ _ _ _ _ _) as [[forw back]|]; [|discriminate].
  intros H. injection H as <- <-.
  unfold separate, owned in *. simpl. rewrite Hs, Hf, Hb in *. simpl in *.
  rewrite Hl2, Hl1, Hlive in Hfresh3. rewrite Hl1, Hlive in Hfresh2.
  rewrite Hlive in Hfresh1. clear Hl1 Hl2 Hl3 Hlive.
  generalize dependent (ptr_set (keyid re)). intros K. set_solver.
Qed.

(** After a successful call on a structure without tables, the live
    blocks are those of before, the instance and what its fields refer
    to, all different. *)
Lemma customize_ok_holds orig cfg keyid0 h self e h' :
  shift_forw orig = None -> shift_back orig = None ->
  rotn_customize orig cfg keyid0 h = (0, Some (self, e), h') ->
  holds (live h) self e h' /\ separate self e.
Proof.
  intros Hf Hb. unfold rotn_customize, calloc.
  destruct (malloc _ h) as [[p|] h0] eqn:Hm; [|discriminate].
  apply malloc_some in Hm as (Hfresh & Hl0 & _).
  destruct (_ <? 0); [discriminate|].
  set (re0 := set_secretkey None (set_keyid None orig)).
  assert (H0 : holds (live h) p re0 h0).
  { unfold holds, owned. simpl. rewrite Hf, Hb. simpl.
    split; [rewrite Hl0; set_solver | split; [done | set_solver]]. }
  assert (S0 : separate p re0).
  { unfold separate, owned. simpl. rewrite Hf, Hb. simpl. set_solver. }
  pose proof (stash_keyid_holds (live h) p cfg re0 h0 eq_refl H0) as Hk.
  destruct (stash_keyid cfg re0 h0) as [re1 h1|] eqn:Hsk; [|discriminate].
  pose proof (stash_keyid_separate (live h) p cfg re0 h0 re1 h1
                eq_refl H0 S0 Hsk) as S1.
  apply stash_keyid_next in Hsk as (_ & Hs1 & Hf1 & Hb1 & _).
  simpl in Hs1, Hf1, Hb1. rewrite Hf in Hf1. rewrite Hb in Hb1.
  pose proof (stash_secret_holds (live h) p cfg (atoi (str keyid0))
                re1 h1 Hs1 Hf1 Hb1 Hk) as Hs.
  destruct (stash_secret _ _ _ _) as [re2 h2|] eqn:Hss; [|discriminate].
  pose proof (stash_secret_separate _ _ _ _ _ _ _ _ Hs1 Hf1 Hb1 Hk S1 Hss)
    as S2.
  intros H. injection H as <- <- <-. split; [exact Hs | exact S2].
Qed.

Lemma free_ptr_live (p : option buffer) h :
  ptr_set p ⊆ live h ->
  exists h', free_ptr (blk <$> p) h = Some h'
             /\ live h' = live h ∖ ptr_set p.
Proof.
  intros Hin. destruct p as [b|]; simpl.
  - rewrite decide_True by set_solver. eexists. split; [reflexivity|done].
  - eexists. split; [reflexivity|]. simpl. set_solver.
Qed.

(** [rotn_terminate] on an instance that holds its blocks: every [free]
    is defined and the blocks that remain are those of [L0]. *)
Lemma rotn_terminate_run L0 self e h :
  holds L0 self e h -> separate self e ->
  exists h', rotn_terminate self e h = Some (0, h') /\ live h' = L0.
Proof.
  intros (Hlive & Hself & Hdisj) (Hse & Hks & Hf & Hb).
  unfold rotn_terminate, owned in *.
  destruct (free_ptr_live (secretkey e) h) as (h1 & -> & Hl1);
    [rewrite Hlive; set_solver|]. simpl.
  destruct (free_ptr_live (keyid e) h1) as (h2 & -> & Hl2);
    [rewrite Hl1, Hlive; set_solver|]. simpl.
  destruct (free_ptr_live (shift_forw e) h2) as (h3 & -> & Hl3);
    [rewrite Hl2, Hl1, Hlive; set_solver|]. simpl.
  destruct (free_ptr_live (shift_back e) h3) as (h4 & -> & Hl4);
    [rewrite Hl3, Hl2, Hl1, Hlive; set_solver|]. simpl.
  rewrite decide_True by (rewrite Hl4, Hl3, Hl2, Hl1, Hlive; set_solver).
  eexists. split; [reflexivity|]. simpl.
  rewrite Hl4, Hl3, Hl2, Hl1, Hlive.
  generalize dependent (ptr_set (keyid e)).
  generalize dependent (ptr_set (secretkey e)).
  generalize dependent (ptr_set (shift_forw e)).
  generalize dependent (ptr_set (shift_back e)).
  intros B F S K. set_solver.
Qed.

(** X12.  [rotn_terminate] undoes [rotn_customize]: on the instance a
    successful call returned (for a structure without tables, as the
    registered one), it returns 0, every block it frees is live when it
    is freed, and the live blocks are again those of before the
    customization. *)
Theorem terminate_undoes_customize (orig : ROTN_ENCRYPTOR)
    (cfg : WT_CONFIG_ARG) (keyid0 : WT_CONFIG_ITEM) (h h1 : heap)
    (self : nat) (e : ROTN_ENCRYPTOR) :
  shift_forw orig = None -> shift_back orig = None ->
  rotn_customize orig cfg keyid0 h = (0, Some (self, e), h1) ->
  exists h2, rotn_terminate self e h1 = Some (0, h2) /\ live h2 = live h.
Proof.
  intros Hf Hb Hrun.
  destruct (customize_ok_holds orig cfg keyid0 h self e h1 Hf Hb Hrun)
    as [Hh Hs].
  exact (rotn_terminate_run (live h) self e h1 Hh Hs).
Qed.

Lemma terminate_undoes_customize_witness :
  exists h2,
    rotn_terminate 0 abc_2
      (snd (rotn_customize (rotn_template host_api) config_abc_2
              (ConfigItem (bytes "2")) plentiful))
    = Some (0, h2)
    /\ live h2 = live plentiful.
Proof.
  apply (terminate_undoes_customize (rotn_template host_api) config_abc_2
           (ConfigItem (bytes "2")) plentiful
           (snd (rotn_customize (rotn_template host_api) config_abc_2
                   (ConfigItem (bytes "2")) plentiful))
           0%nat abc_2);
    [reflexivity | reflexivity | vm_compute; reflexivity].
Defined.

(** X13.  A second [rotn_terminate] on the same instance is undefined:
    the instance was freed by the first. *)
Theorem terminate_twice_undefined (orig : ROTN_ENCRYPTOR)
    (cfg : WT_CONFIG_ARG) (keyid0 : WT_CONFIG_ITEM) (h h1 h2 : heap)
    (self : nat) (e : ROTN_ENCRYPTOR) :
  shift_forw orig = None -> shift_back orig = None ->
  rotn_customize orig cfg keyid0 h = (0, Some (self, e), h1) ->
  rotn_terminate self e h1 = Some (0, h2) ->
  rotn_terminate self e h2 = None.
Proof.
  intros Hf Hb Hrun Hterm.
  destruct (customize_ok_holds orig cfg keyid0 h self e h1 Hf Hb Hrun)
    as [Hh Hs].
  destruct (rotn_terminate_run (live h) self e h1 Hh Hs) as (h2' & Ht & Hl).
  rewrite Hterm in Ht. injection Ht as <-.
  destruct Hh as (Hlive & Hself & Hdisj).
  unfold rotn_terminate.
  assert (Hgone : forall p : option buffer,
            ptr_set p ⊆ owned e ->
            forall h3, live h3 ⊆ live h ->
            free_ptr (blk <$> p) h3 = None
            \/ exists h4, free_ptr (blk <$> p) h3 = Some h4
                          /\ live h4 ⊆ live h).
  { intros [b|] Hp h3 Hsub; simpl.
    - left. rewrite decide_False; [done|]. set_solver.
    - right. eauto. }
  destruct (Hgone (secretkey e) ltac:(unfold owned; set_solver) h2
              ltac:(rewrite Hl; done)) as [->|(h3 & -> & H3)]; [done|].
  simpl.
  destruct (Hgone (keyid e) ltac:(unfold owned; set_solver) h3 H3)
    as [->|(h4 & -> & H4)]; [done|]. simpl.
  destruct (Hgone (shift_forw e) ltac:(unfold owned; set_solver) h4 H4)
    as [->|(h5 & -> & H5)]; [done|]. simpl.
  destruct (Hgone (shift_back e) ltac:(unfold owned; set_solver) h5 H5)
    as [->|(h6 & -> & H6)]; [done|]. simpl.
  rewrite decide_False; [done|]. set_solver.
Qed.

Lemma terminate_twice_undefined_witness :
  rotn_terminate 0 abc_2
    (snd (default (0, plentiful)
            (rotn_terminate 0 abc_2
               (snd (rotn_customize (rotn_template host_api) config_abc_2
                       (ConfigItem (bytes "2")) plentiful)))))
  = None.
Proof.
  apply (terminate_twice_undefined (rotn_template host_api) config_abc_2
           (ConfigItem (bytes "2")) plentiful
           (snd (rotn_customize (rotn_template host_api) config_abc_2
                   (ConfigItem (bytes "2")) plentiful))
           _ 0%nat abc_2);
    [reflexivity | reflexivity | vm_compute; reflexivity
    | vm_compute; reflexivity].
Defined.

(** X14.  From registration to shutdown nothing is left allocated: for
    the structure [wiredtiger_extension_init] hands to the host, an
    instance customized from it through its method table is released by
    the table's [terminate], the structure itself by a second call on
    it, both returning 0, and the live blocks are then those of before
    the registration. *)
Theorem lifecycle_releases_everything (connection : WT_CONNECTION)
    (cfg : WT_CONFIG_ARG) (keyid0 : WT_CONFIG_ITEM) (h h0 h1 : heap)
    (code : Z) (self0 self : nat) (methods : WT_ENCRYPTOR)
    (re0 e : ROTN_ENCRYPTOR) :
  wiredtiger_extension_init connection h
  = (code, Some (self0, methods, re0), h0) ->
  customize methods re0 cfg keyid0 h0 = (0, Some (self, e), h1) ->
  code = add_encryptor connection "rotn" self0 methods re0
  /\ exists h2 h3,
       terminate methods self e h1 = Some (0, h2)
       /\ terminate methods self0 re0 h2 = Some (0, h3)
       /\ live h3 = live h.
Proof.
  unfold wiredtiger_extension_init, calloc.
  destruct (malloc _ h) as [[p|] h'] eqn:Hm; [|discriminate].
  apply malloc_some in Hm as (Hfresh & Hl0 & _).
  intros Hinit. injection Hinit as <- <- <- <- <-. simpl.
  intros Hrun. split; [reflexivity|].
  destruct (customize_ok_holds
              (RotnEncryptor (get_extension_api connection) 0
                             None None None None 0)
              cfg keyid0 h' self e h1 eq_refl eq_refl Hrun)
    as [Hh Hs].
  destruct (rotn_terminate_run (live h') self e h1 Hh Hs) as (h2 & Ht & Hl2).
  exists h2. unfold rotn_terminate at 2. simpl.
  rewrite decide_True by (rewrite Hl2, Hl0; set_solver).
  eexists. split; [exact Ht|]. split; [reflexivity|]. simpl.
  rewrite Hl2, Hl0. set_solver.
Qed.

Lemma lifecycle_releases_everything_witness :
  0 = add_encryptor host_connection "rotn" 0%nat
        (MethodTable rotn_encrypt rotn_decrypt rotn_sizing
                     rotn_customize rotn_terminate)
        (rotn_template host_api)
  /\ exists h2 h3,
       rotn_terminate 1
         (RotnEncryptor host_api 2
            (Some (Buffer 2 [50; 0])) (Some (Buffer 3 [65; 66; 67; 0]))
            (Some (Buffer 4 [2; 3; 4])) (Some (Buffer 5 [254; 253; 252])) 3)
         (snd (rotn_customize (rotn_template host_api) config_abc_2
                 (ConfigItem (bytes "2"))
                 (snd (wiredtiger_extension_init host_connection plentiful))))
       = Some (0, h2)
       /\ rotn_terminate 0 (rotn_template host_api) h2 = Some (0, h3)
       /\ live h3 = live plentiful.
Proof.
  apply (lifecycle_releases_everything host_connection config_abc_2
           (ConfigItem (bytes "2")) plentiful
           (snd (wiredtiger_extension_init host_connection plentiful))
           (snd (rotn_customize (rotn_template host_api) config_abc_2
                   (ConfigItem (bytes "2"))
                   (snd (wiredtiger_extension_init host_connection
                           plentiful))))
           0 0%nat 1%nat
           (MethodTable rotn_encrypt rotn_decrypt rotn_sizing
                        rotn_customize rotn_terminate)
           (rotn_template host_api)
           (RotnEncryptor host_api 2
              (Some (Buffer 2 [50; 0])) (Some (Buffer 3 [65; 66; 67; 0]))
              (Some (Buffer 4 [2; 3; 4])) (Some (Buffer 5 [254; 253; 252]))
              3));
    [reflexivity | vm_compute; reflexivity].
Defined.

(** ** Encrypt and decrypt through the reported length *)

(** X15.  When the destination of [rotn_encrypt] is larger than the text
    plus the header, the length it reports counts the unused tail, and
    the one decryption that length admits gives the text back followed
    by [dst_len - 20 - length b] further bytes (rotation mode, rotation
    amount in [0,25]). *)
Theorem roundtrip_through_result_len (e : ROTN_ENCRYPTOR) (n : Z)
    (b : list Z) (dst_len : Z) (w1 w2 : world) :
  shift_len e = 0 -> rot_N e = n -> 0 <= n <= 25 ->
  Z.of_nat (length b) + 20 <= dst_len -> dst_len < 2 ^ 32 ->
  dst_len = Z.of_nat (length (dst w1)) ->
  Z.of_nat (length (dst w2)) = dst_len - 20 ->
  exists w1' w2',
    rotn_encrypt e (Some b) (Z.of_nat (length b)) dst_len w1 = Ok 0 w1'
    /\ result_len w1' = dst_len
    /\ rotn_decrypt e (Some (dst w1')) (result_len w1')
                    (result_len w1' - 20) w2 = Ok 0 w2'
    /\ take (length b) (dst w2') = b
    /\ Z.of_nat (length (dst w2')) = dst_len - 20.
Proof.
  intros Hmode Hrot Hn Hroom Hlt Hd1 Hd2.
  destruct (rotn_encrypt_run e b (Z.of_nat (length b)) dst_len w1)
    as (w1' & Henc & Hres & _ & Hl1 & Htext & _);
    [now left | reflexivity | lia | lia | lia |].
  destruct (rotn_decrypt_run e (dst w1') dst_len (dst_len - 20) w2)
    as (w2' & Hdec & _ & _ & Hl2 & Hback);
    [now left | lia | lia | lia | lia |].
  exists w1', w2'. rewrite Hres.
  split; [exact Henc|]. split; [reflexivity|]. split; [exact Hdec|].
  split; [|lia].
  apply list_eq. intros j.
  destruct (decide (j < length b)%nat) as [Hj|Hj].
  - rewrite lookup_take_lt by lia.
    rewrite Hback by lia. rewrite Htext by lia.
    destruct (b !! j) as [c|] eqn:Hc; simpl; [|done].
    f_equal. unfold dec_byte, enc_byte. rewrite Hmode, Hrot. simpl.
    now apply rotate_byte_inverse.
  - rewrite lookup_take_ge by lia.
    symmetry. apply lookup_ge_None. lia.
Qed.

Lemma roundtrip_through_result_len_witness :
  exists w1' w2',
    rotn_encrypt rot13 (Some (bytes "Hello"))
                 (Z.of_nat (length (bytes "Hello"))) 30
                 (world_of (replicate 30 0)) = Ok 0 w1'
    /\ result_len w1' = 30
    /\ rotn_decrypt rot13 (Some (dst w1')) (result_len w1')
                    (result_len w1' - 20) (world_of (replicate 10 0))
       = Ok 0 w2'
    /\ take (length (bytes "Hello")) (dst w2') = bytes "Hello"
    /\ Z.of_nat (length (dst w2')) = 30 - 20.
Proof.
  apply (roundtrip_through_result_len rot13 13 (bytes "Hello") 30
           (world_of (replicate 30 0)) (world_of (replicate 10 0)));
    [reflexivity | reflexivity | lia | simpl; lia | lia
    | reflexivity | reflexivity].
Defined.

(** X16.  A successful [rotn_encrypt] writes the header and the text
    and nothing behind them: the destination keeps its length and every
    byte from index [20 + src_len] on. *)
Theorem encrypt_writes_within_bounds (e : ROTN_ENCRYPTOR) (b : list Z)
    (dst_len : Z) (w : world) :
  tables_ok e ->
  Z.of_nat (length b) < 2 ^ 32 ->
  Z.of_nat (length b) + 20 <= dst_len ->
  dst_len <= Z.of_nat (length (dst w)) ->
  exists w',
    rotn_encrypt e (Some b) (Z.of_nat (length b)) dst_len w = Ok 0 w'
    /\ length (dst w') = length (dst w)
    /\ drop (20 + length b) (dst w') = drop (20 + length b) (dst w)
    /\ stderr w' = stderr w.
Proof.
  intros Hok Hlt Hroom Hbuf.
  destruct (rotn_encrypt_run e b (Z.of_nat (length b)) dst_len w)
    as (w' & Hrun & _ & Herr & Hl & _ & Hrest); try (done || lia).
  exists w'. split; [exact Hrun|]. split; [exact Hl|]. split; [|exact Herr].
  apply list_eq. intros k. rewrite !lookup_drop. apply Hrest. lia.
Qed.

Lemma encrypt_writes_within_bounds_witness :
  exists w',
    rotn_encrypt rot13 (Some (bytes "Hello"))
                 (Z.of_nat (length (bytes "Hello"))) 25
                 (world_of (replicate 32 7)) = Ok 0 w'
    /\ length (dst w') = length (dst (world_of (replicate 32 7)))
    /\ drop (20 + length (bytes "Hello")) (dst w')
       = drop (20 + length (bytes "Hello")) (dst (world_of (replicate 32 7)))
    /\ stderr w' = stderr (world_of (replicate 32 7)).
Proof.
  apply (encrypt_writes_within_bounds rot13 (bytes "Hello") 25
           (world_of (replicate 32 7)));
    [now left | simpl; lia | simpl; lia | simpl; lia].
Defined.



(** ** What holds of every call that returns *)

(** X18.  Whatever the local [keyid] held on entry, whenever the call
    returns an instance for a configuration with a secret, that
    instance round-trips: [rotn_encrypt] of a buffer of bytes (fewer
    than 2^32) into [length b + 20] bytes returns 0, and [rotn_decrypt]
    of the result into [length b] bytes returns 0 and leaves [b]. *)
Theorem returned_instance_roundtrips (orig : ROTN_ENCRYPTOR)
    (cfg : WT_CONFIG_ARG) (entry : entry_keyid) (secret : WT_CONFIG_ITEM)
    (h h' : heap) (self : nat) (e : ROTN_ENCRYPTOR) (b : list Z)
    (w1 w2 : world) :
  rotn_customize_call orig cfg entry h = Returned (0, Some (self, e), h') ->
  config_get (wt_api orig) cfg "secretkey" = (0, secret) ->
  len secret <> 0 ->
  Forall (fun c => 0 <= c < 256) b ->
  Z.of_nat (length b) < 2 ^ 32 ->
  Z.of_nat (length (dst w1)) = Z.of_nat (length b) + 20 ->
  length (dst w2) = length b ->
  exists w1' w2',
    rotn_encrypt e (Some b) (Z.of_nat (length b))
                 (Z.of_nat (length b) + 20) w1 = Ok 0 w1'
    /\ rotn_decrypt e (Some (dst w1')) (Z.of_nat (length b) + 20)
                    (Z.of_nat (length b)) w2 = Ok 0 w2'
    /\ dst w2' = b.
Proof.
  intros Hcall Hcfg Hlen Hbytes Hlt Hd1 Hd2.
  destruct entry as [keyid0|]; simpl in Hcall.
  2:{ unfold calloc in Hcall.
      destruct (malloc _ h) as [[p|] h0]; inversion Hcall. }
  injection Hcall as Hrun.
  destruct (customize_built orig cfg keyid0 h self e h' secret Hrun Hcfg Hlen)
    as (_ & Hbuilt & _).
  destruct (roundtrip_run e b w1 w2) as (w1' & w2' & He & Hd & Hres & _);
    auto; [| |eauto].
  - apply (built_from_tables_ok secret (atoi (str keyid0))); done.
  - intros j c Hc.
    apply (built_from_inverse secret (atoi (str keyid0))); [done|done|lia|].
    rewrite Forall_lookup in Hbytes. exact (Hbytes j c Hc).
Qed.

Lemma returned_instance_roundtrips_witness :
  exists w1' w2',
    rotn_encrypt abc_2 (Some (bytes "MySecret"))
                 (Z.of_nat (length (bytes "MySecret")))
                 (Z.of_nat (length (bytes "MySecret")) + 20)
                 (world_of (replicate 28 0)) = Ok 0 w1'
    /\ rotn_decrypt abc_2 (Some (dst w1'))
                    (Z.of_nat (length (bytes "MySecret")) + 20)
                    (Z.of_nat (length (bytes "MySecret")))
                    (world_of (replicate 8 0)) = Ok 0 w2'
    /\ dst w2' = bytes "MySecret".
Proof.
  apply (returned_instance_roundtrips (rotn_template host_api) config_abc_2
           (Addresses (ConfigItem (bytes "2"))) (ConfigItem (bytes "ABC"))
           plentiful
           (snd (rotn_customize (rotn_template host_api) config_abc_2
                   (ConfigItem (bytes "2")) plentiful))
           0%nat abc_2 (bytes "MySecret")
           (world_of (replicate 28 0)) (world_of (replicate 8 0)));
    [ vm_compute; reflexivity | reflexivity | discriminate
    | repeat (constructor; [simpl; lia|]); constructor
    | simpl; lia | reflexivity | reflexivity ].
Defined.

(** X19.  A secret with a byte that is not a letter is never accepted:
    whatever the local [keyid] held on entry and whatever the allocator
    grants, whenever the call returns for such a configuration it
    returns an error code and stores no instance. *)
Theorem bad_secret_never_accepted (orig : ROTN_ENCRYPTOR)
    (cfg : WT_CONFIG_ARG) (entry : entry_keyid) (secret : WT_CONFIG_ITEM)
    (h h' : heap) (r : Z) (inst : option (nat * ROTN_ENCRYPTOR))
    (j : nat) (c : Z) :
  rotn_customize_call orig cfg entry h = Returned (r, inst, h') ->
  config_get (wt_api orig) cfg "secretkey" = (0, secret) ->
  str secret !! j = Some c -> isalpha c = false ->
  r <> 0 /\ inst = None.
Proof.
  intros Hcall Hcfg Hc Hbad.
  destruct entry as [keyid0|]; simpl in Hcall.
  - destruct (customize_rejects_bad_secret orig cfg keyid0 secret h j c
                Hcfg Hc Hbad) as (r0 & h0 & Hrun & Hr).
    rewrite Hrun in Hcall. injection Hcall as <- <- <-. done.
  - unfold calloc in Hcall. destruct (malloc _ h) as [[p|] h0] eqn:Hm;
      [discriminate|].
    apply malloc_none in Hm as [_ Herrno].
    injection Hcall as <- <- <-. now rewrite Herrno.
Qed.

Lemma bad_secret_never_accepted_witness :
  EPERM <> 0 /\ @None (nat * ROTN_ENCRYPTOR) = None.
Proof.
  apply (bad_secret_never_accepted (rotn_template host_api) config_a1c
           (Addresses (ConfigItem (bytes "2"))) (ConfigItem (bytes "A1C"))
           plentiful
           (snd (rotn_customize (rotn_template host_api) config_a1c
                   (ConfigItem (bytes "2")) plentiful))
           EPERM None 1%nat 49);
    [vm_compute; reflexivity | reflexivity | reflexivity | reflexivity].
Defined.
